(** * The Python indexer of doctree: [pythonIndexer.IndexDir]

    A shallow embedding of [doctree/indexer/python] (the second part of
    [src/cmd/doctree/search.go]) and the properties of the [schema.Index]
    it returns.

    Go values are modelled as follows.
    - [string] and [[]byte] are Rocq strings (sequences of bytes);
    - [int] is a 64-bit two's complement integer, held in [Z] and wrapped
      by [wrapInt] after every addition;
    - [error] is the inductive type [error]; the Go result pair
      of an Index pointer and an error is a pair of options;
    - [map[string]T] is a [gmap string T]; the order in which [range]
      visits a map is not specified by Go and is supplied by an oracle;
    - the file system behind [os.DirFS(dir)] is a finite directory tree
      together with the function [fs.ReadFile] computes;
    - the tree-sitter binding is an interface ([TreeSitter]) whose
      operations are parameters of the development. *)

From Stdlib Require Import ZArith Ascii String.
From stdpp Require Import gmap strings list fin_maps.

Set Warnings "-register-all".
Local Open Scope string_scope.
Local Open Scope list_scope.

(** ** Go strings *)

Module strings.

(** [strings.HasPrefix(s, prefix)] *)
Definition HasPrefix (s pre : string) : bool := String.prefix pre s.

(** [strings.HasSuffix(s, suffix)]:
    [len(s) >= len(suffix) && s[len(s)-len(suffix):] == suffix] *)
Definition HasSuffix (s suf : string) : bool :=
  (String.length suf <=? String.length s)%nat &&
  String.eqb
    (String.substring (String.length s - String.length suf)
                      (String.length suf) s)
    suf.

(** [strings.TrimPrefix(s, prefix)] *)
Definition TrimPrefix (s pre : string) : string :=
  if HasPrefix s pre
  then String.substring (String.length pre)
                        (String.length s - String.length pre) s
  else s.

(** [strings.TrimSuffix(s, suffix)] *)
Definition TrimSuffix (s suf : string) : string :=
  if HasSuffix s suf
  then String.substring 0 (String.length s - String.length suf) s
  else s.

(** [strings.Contains(s, substr)]: [substr] occurs at some offset of [s]. *)
Fixpoint Contains (s sub : string) : bool :=
  String.prefix sub s ||
  match s with
  | EmptyString => false
  | String _ s' => Contains s' sub
  end.

(** The scan of [strings.ReplaceAll(s, old, new)] for a non-empty [old]:
    leftmost occurrences, not overlapping.  [skip] counts the bytes of an
    occurrence of [old] that remain to be dropped. *)
Fixpoint replaceFrom (skip : nat) (old new s : string) : string :=
  match s with
  | EmptyString => EmptyString
  | String c s' =>
      match skip with
      | S k => replaceFrom k old new s'
      | O =>
          if String.prefix old s
          then new +:+ replaceFrom (String.length old - 1) old new s'
          else String c (replaceFrom 0 old new s')
      end
  end.

(** [strings.ReplaceAll(s, old, new)].  The indexer calls it with the
    one-byte [old = "/"]; the case of an empty [old] (which Go defines
    rune by rune) is not used and returns [s]. *)
Definition ReplaceAll (s old new : string) : string :=
  match old with
  | EmptyString => s
  | _ => replaceFrom 0 old new s
  end.

(** [strings.Join(elems, sep)] *)
Fixpoint Join (elems : list string) (sep : string) : string :=
  match elems with
  | [] => EmptyString
  | [e] => e
  | e :: rest => e +:+ sep +:+ Join rest sep
  end.

End strings.

Module filepath.

(** The loop of [filepath.Ext], which reads [path] from its last byte
    backwards: it stops at a separator, and returns the suffix that
    starts at the first dot it meets.  [rpath] is what remains to be
    read (reversed), [acc] the bytes already passed. *)
Fixpoint extLoop (rpath : list ascii) (acc : list ascii) : string :=
  match rpath with
  | [] => EmptyString
  | c :: r =>
      if Ascii.eqb c "/"%char then EmptyString
      else if Ascii.eqb c "."%char
           then string_of_list_ascii (c :: acc)
           else extLoop r (c :: acc)
  end.

(** [filepath.Ext(path)] (with the separator of Unix). *)
Definition Ext (path : string) : string :=
  extLoop (rev (list_ascii_of_string path)) [].

End filepath.

(** ** Go's [int] *)

Definition intBits : Z := 64.
Definition maxInt : Z := 2 ^ (intBits - 1) - 1.

(** Two's complement wrap-around of a 64-bit [int]. *)
Definition wrapInt (z : Z) : Z :=
  (z + 2 ^ (intBits - 1)) mod 2 ^ intBits - 2 ^ (intBits - 1).

(** [len(s)] of a string or byte slice, as an [int]. *)
Definition len (s : string) : Z := Z.of_nat (String.length s).

(** ** Errors *)

(** An [error] value: either an error of some library, with its message,
    or the result of [errors.Wrap(cause, msg)] of github.com/pkg/errors. *)
Inductive error : Type :=
| ErrorString (msg : string)
| Wrapped (cause : error) (msg : string).

Module errors.

(** [errors.Wrap(err, message)] for a non-nil [err]. *)
Definition Wrap (err : error) (message : string) : error :=
  Wrapped err message.

(** [err.Error()]: a wrapped error prints as [message: cause]. *)
Fixpoint Error (e : error) : string :=
  match e with
  | ErrorString msg => msg
  | Wrapped cause msg => msg +:+ ": " +:+ Error cause
  end.


End errors.

(** ** Contexts *)

Module context.

(** A [context.Context], by what [ctx.Err()] returns when [IndexDir]
    runs: [None] while the context is live. *)
Record Context : Type := { Err : option error }.

(** [context.Canceled] *)
Definition Canceled : error := ErrorString "context canceled".

(** [context.Background()] *)
Definition Background : Context := {| Err := None |}.

(** A context whose [cancel] function has been called. *)
Definition cancelled : Context := {| Err := Some Canceled |}.

End context.

(** ** The schema *)

Module schema.

Definition Markdown : Type := string.

(** [schema.Section], with the fields of the struct.  [Children] holds
    Sections by value. *)
Inductive Section : Type := mkSection {
  ID : string;
  ShortLabel : string;
  Label : Markdown;
  Detail : Markdown;
  SearchKey : list string;
  Category : bool;
  Children : list Section
}.

(** [schema.Page], with the fields the indexer sets ([Detail] and
    [SearchKey] are prefixed, the names being taken by [Section]). *)
Record Page : Type := mkPage {
  Path : string;
  Title : string;
  PageDetail : Markdown;
  PageSearchKey : list string;
  Sections : list Section
}.

(** [schema.Library] *)
Record Library : Type := mkLibrary {
  Name : string;
  Repository : string;
  LibraryID : string;
  Version : string;
  VersionType : string;
  Pages : list Page
}.

(** [schema.Index], with the fields the indexer sets.  The schema package
    is not part of these sources; the schema version is held as an
    integer and the language as its tag. *)
Record Index : Type := mkIndex {
  SchemaVersion : Z;
  Language : string;
  NumFiles : Z;
  NumBytes : Z;
  Libraries : list Library
}.

(** The constants [schema.LatestVersion] and [schema.LanguagePython],
    whose values are set in the schema package. *)
Class Constants : Type := {
  LatestVersion : Z;
  LanguagePython : string
}.

(** The height of a Section tree: a leaf has depth 1. *)
Fixpoint depth (s : Section) : nat :=
  S (foldr (fun c d => Nat.max (depth c) d) 0%nat (Children s)).

End schema.

(** ** The file system: [io/fs] over [os.DirFS(dir)] *)

Module fs.

(** A directory entry.  A [Dir] carries what [fs.ReadDir] returns for it:
    its entries in the order of their file names, and the error of the
    read, if any.  A [File] is any entry for which [IsDir()] is false. *)
Inductive DirEntry : Type :=
| File (name : string)
| Dir (name : string) (entries : list DirEntry) (readErr : option error).

(** [d.Name()] *)
Definition Name (d : DirEntry) : string :=
  match d with
  | File name => name
  | Dir name _ _ => name
  end.

(** [d.IsDir()] *)
Definition IsDir (d : DirEntry) : bool :=
  match d with
  | File _ => false
  | Dir _ _ _ => true
  end.

(** An [fs.FS]: [Stat] is the result of [fs.Stat(fsys, ".")], the entry
    of the root or the error of the call; [ReadFile] is what
    [fs.ReadFile(fsys, path)] returns, the bytes of the file or an
    error. *)
Record FS : Type := mkFS {
  Stat : DirEntry + error;
  ReadFile : string -> string + error
}.

(** [path.Join(name, elem)] as [walkDir] calls it: [name] is the root
    ["."] or a clean relative path, [elem] the name of an entry. *)
Definition pathJoin (name elem : string) : string :=
  if String.eqb name "." then elem else name +:+ "/" +:+ elem.

(** [fs.WalkDirFunc], for a function that updates variables of type [St]
    it has captured.  The entry is absent ([nil]) only when the error is
    present. *)
Definition WalkDirFunc (St : Type) : Type :=
  string -> option DirEntry -> option error -> St -> St * option error.

(** [walkDir] of [io/fs]: the function is called on the entry; for a
    directory the entries are read, a failed read is reported by a second
    call, and each entry is walked in turn.  The walk stops at the first
    error the function returns.  ([fs.SkipDir] and [fs.SkipAll] are never
    returned by the function of the indexer and are not modelled.) *)
Fixpoint walkDir {St : Type} (fn : WalkDirFunc St) (name : string)
    (d : DirEntry) (st : St) {struct d} : St * option error :=
  match fn name (Some d) None st with
  | (st1, Some e) => (st1, Some e)
  | (st1, None) =>
      match d with
      | File _ => (st1, None)
      | Dir _ entries readErr =>
          let walkAll :=
            fix walkAll (ds : list DirEntry) (s : St) {struct ds}
                : St * option error :=
              match ds with
              | [] => (s, None)
              | d1 :: ds' =>
                  match walkDir fn (pathJoin name (Name d1)) d1 s with
                  | (s', Some e) => (s', Some e)
                  | (s', None) => walkAll ds' s'
                  end
              end in
          match readErr with
          | None => walkAll entries st1
          | Some e =>
              match fn name (Some d) (Some e) st1 with
              | (st2, Some e') => (st2, Some e')
              | (st2, None) => walkAll entries st2
              end
          end
      end
  end.

(** The loop of [walkDir] over the entries of the directory [name]. *)
Definition walkEntries {St : Type} (fn : WalkDirFunc St) (name : string)
    : list DirEntry -> St -> St * option error :=
  fix walkAll (ds : list DirEntry) (s : St) {struct ds}
      : St * option error :=
    match ds with
    | [] => (s, None)
    | d1 :: ds' =>
        match walkDir fn (pathJoin name (Name d1)) d1 s with
        | (s', Some e) => (s', Some e)
        | (s', None) => walkAll ds' s'
        end
    end.

(** [fs.WalkDir(fsys, ".", fn)] *)
Definition WalkDir {St : Type} (fsys : FS) (fn : WalkDirFunc St) (st : St)
    : St * option error :=
  match Stat fsys with
  | inr err => fn "." None (Some err) st
  | inl info => walkDir fn "." info st
  end.

(** The paths of the files below an entry, in the order of the walk. *)
Fixpoint filesUnder (name : string) (d : DirEntry) : list string :=
  match d with
  | File _ => [name]
  | Dir _ entries _ =>
      flat_map (fun d1 => filesUnder (pathJoin name (Name d1)) d1) entries
  end.

(** The paths of all files of a file system. *)
Definition allFiles (fsys : FS) : list string :=
  match Stat fsys with
  | inl info => filesUnder "." info
  | inr _ => []
  end.

(** The errors of the directory reads below an entry, in the order of
    the walk. *)
Fixpoint readErrors (d : DirEntry) : list error :=
  match d with
  | File _ => []
  | Dir _ entries readErr =>
      match readErr with Some e => [e] | None => [] end
      ++ flat_map readErrors entries
  end.

(** The first error a walk of the file system meets, if any: that of
    [Stat], or that of the first directory that cannot be read. *)
Definition walkError (fsys : FS) : option error :=
  match Stat fsys with
  | inl info => head (readErrors info)
  | inr err => Some err
  end.

End fs.

(** ** The tree-sitter binding *)

Module sitter.

(** A syntax node, by the range of bytes it covers. *)
Record Node : Type := mkNode { StartByte : nat; EndByte : nat }.

(** [n.Content(input)]: [input[n.StartByte():n.EndByte()]] *)
Definition Content (n : Node) (input : string) : string :=
  String.substring (StartByte n) (EndByte n - StartByte n) input.

(** [sitter.QueryCapture]: the index of the capture name and the node. *)
Record QueryCapture : Type := mkCapture { Index : nat; CNode : Node }.

(** [sitter.QueryMatch] *)
Record QueryMatch : Type := mkMatch { Captures : list QueryCapture }.

End sitter.

(** The operations of github.com/smacker/go-tree-sitter that the indexer
    calls, for the Python grammar.
    - [ParseCtx ctx content] is [parser.ParseCtx(ctx, nil, content)];
    - [NewQuery pattern] is [sitter.NewQuery(pattern, python.GetLanguage())];
    - [CaptureNameForId q id] is [q.CaptureNameForId(id)];
    - [Exec q tree] is the sequence of matches that [cursor.NextMatch()]
      yields after [cursor.Exec(q, tree.RootNode())], until it reports
      that there is none left. *)
Class TreeSitter : Type := {
  Tree : Type;
  Query : Type;
  ParseCtx : context.Context -> string -> Tree + error;
  NewQuery : string -> Query + error;
  CaptureNameForId : Query -> nat -> string;
  Exec : Query -> Tree -> list sitter.QueryMatch
}.

(** ** The indexer *)

Definition newline : string := String (ascii_of_nat 10) EmptyString.
Definition dquote : ascii := ascii_of_nat 34.
Definition tripleQuote : string :=
  String dquote (String dquote (String dquote EmptyString)).

(** [pythonIndexer.Extensions] *)
Definition Extensions : list string := ["py"; "py3"].

(** [sanitizeDocs] *)
Definition sanitizeDocs (s : string) : string :=
  strings.TrimSuffix (strings.TrimPrefix s tripleQuote) tripleQuote.

(** [moduleInfo] *)
Record moduleInfo : Type := mkModuleInfo { path : string; docs : string }.

(** [firstCaptureContentOr] *)
Definition firstCaptureContentOr (content : string)
    (captures : list sitter.Node) (defaultValue : string) : string :=
  match captures with
  | c :: _ => sitter.Content c content
  | [] => defaultValue
  end.

(** [joinCaptures] *)
Definition joinCaptures (content : string) (captures : list sitter.Node)
    (sep : string) : string :=
  strings.Join
    (foldl (fun v capture => v ++ [sitter.Content capture content]) []
           captures)
    sep.

(** The source of the query for the module clause (up to layout). *)
Definition moduleQuery : string :=
  "(
     module
     .
     (comment)*
     .
     (expression_statement .
       (string) @module_docs
     )?
   )".

(** The source of the query for function definitions (up to layout). *)
Definition functionQuery : string :=
  "(
     module
     (
     function_definition
       name: (identifier) @func_name
       parameters: (parameters) @func_params
       return_type: (type)? @func_result
       body: (block . (expression_statement (string) @func_docs)?)
     )
   )".

(** The test of line 217: [funcName] is not empty, its first byte is an
    underscore and its last byte is not. *)
Definition unexported (funcName : string) : bool :=
  (0 <? String.length funcName)%nat
  && bool_decide (String.get 0 funcName = Some "_"%char)
  && negb (bool_decide
             (String.get (String.length funcName - 1) funcName
              = Some "_"%char)).

(** The name of the module of a source file (line 175). *)
Definition moduleName (path : string) : string :=
  strings.ReplaceAll (strings.TrimSuffix path ".py") "/" ".".

(** The test of line 116: the path looks like a test. *)
Definition isTest (path : string) : bool :=
  strings.Contains path "test_" || strings.Contains path "_test"
  || strings.Contains path "tests".

(** The test of line 102 on the extension of a path. *)
Definition isSource (path : string) : bool :=
  let ext := filepath.Ext path in
  String.eqb ext ".py" || String.eqb ext ".py3".

(** The function handed to [fs.WalkDir] (lines 96 to 107); the captured
    variable is [sources]. *)
Definition walkFn : fs.WalkDirFunc (list string) :=
  fun path d err sources =>
    match err with
    | Some e => (sources, Some e)
    | None =>
        match d with
        | Some d =>
            if negb (fs.IsDir d)
            then (if isSource path then sources ++ [path] else sources, None)
            else (sources, None)
        | None => (sources, None)
        end
    end.

(** The variables of [IndexDir] that the loop over the sources updates. *)
Record locals : Type := mkLocals {
  files : Z;
  bytes : Z;
  mods : gmap string moduleInfo;
  functionsByMod : gmap string (list schema.Section)
}.

(** The order in which a [range] statement visits the entries of a map:
    Go leaves it unspecified, and it may differ from one run to the next.
    A run of [IndexDir] is given the order as a function of the entries. *)
Definition MapRange : Type :=
  list (string * moduleInfo) -> list (string * moduleInfo).

(** What Go guarantees of [range]: every entry is visited once. *)
Definition visitsAll (range : MapRange) : Prop :=
  forall entries, range entries ≡ₚ entries.

Section Indexer.

Context {TS : TreeSitter} {SC : schema.Constants}.

(** [getCaptures] *)
Definition getCaptures (q : Query) (m : sitter.QueryMatch)
    : gmap string (list sitter.Node) :=
  foldl (fun captures c =>
           let cname := CaptureNameForId q (sitter.Index c) in
           <[cname := (captures !!! cname) ++ [sitter.CNode c]]> captures)
        ∅ (sitter.Captures m).

(** The body of the loop over the matches of the module query (lines 170
    to 177), on the variables [modName] and [mods]. *)
Definition moduleClause (path content : string) (query : Query)
    (acc : string * gmap string moduleInfo) (m : sitter.QueryMatch)
    : string * gmap string moduleInfo :=
  let captures := getCaptures query m in
  let modDocs := joinCaptures content (captures !!! "module_docs") newline in
  let modDocs := sanitizeDocs modDocs in
  let modName := moduleName path in
  (modName, <[modName := {| path := path; docs := modDocs |}]> (snd acc)).

(** The name, as captured, of the function of a match (line 213). *)
Definition matchFuncName (content : string) (query : Query)
    (m : sitter.QueryMatch) : string :=
  firstCaptureContentOr content (getCaptures query m !!! "func_name") "".

(** The Section of a function definition (lines 209 to 232): none for an
    unexported function. *)
Definition functionSection (content modName : string) (query : Query)
    (m : sitter.QueryMatch) : option schema.Section :=
  let captures := getCaptures query m in
  let funcDocs := joinCaptures content (captures !!! "func_docs") newline in
  let funcDocs := sanitizeDocs funcDocs in
  let funcName := matchFuncName content query m in
  let funcParams :=
    firstCaptureContentOr content (captures !!! "func_params") "" in
  let funcResult :=
    firstCaptureContentOr content (captures !!! "func_result") "" in
  if unexported funcName then None
  else
    let funcLabel := "def " +:+ funcName +:+ funcParams in
    let funcLabel :=
      if negb (String.eqb funcResult "")
      then funcLabel +:+ (" -> " +:+ funcResult)
      else funcLabel in
    Some {| schema.ID := funcName;
            schema.ShortLabel := funcName;
            schema.Label := funcLabel;
            schema.Detail := funcDocs;
            schema.SearchKey := [modName; "."; funcName];
            schema.Category := false;
            schema.Children := [] |}.

(** The body of the loop over the matches of the function query (lines
    209 to 233), on the variable [functionsByMod]. *)
Definition functionDefinition (content modName : string) (query : Query)
    (functionsByMod : gmap string (list schema.Section))
    (m : sitter.QueryMatch) : gmap string (list schema.Section) :=
  match functionSection content modName query m with
  | None => functionsByMod
  | Some section =>
      let funcs := functionsByMod !!! modName in
      let funcs := funcs ++ [section] in
      <[modName := funcs]> functionsByMod
  end.

(** The body of the loop over the sources (lines 116 to 235): the new
    values of the variables, or the error [IndexDir] returns.  The
    deferred calls of [Close] release the parser, the tree, the queries
    and the cursors when [IndexDir] returns; they do not change its
    result and are left out. *)
Definition indexSource (ctx : context.Context) (dirFS : fs.FS)
    (st : locals) (path : string) : locals + error :=
  if isTest path then inl st
  else
    match fs.ReadFile dirFS path with
    | inr err => inr (errors.Wrap err "ReadFile")
    | inl content =>
        let files := wrapInt (files st + 1) in
        let bytes := wrapInt (bytes st + len content) in
        match ParseCtx ctx content with
        | inr err => inr (errors.Wrap err "ParseCtx")
        | inl tree =>
            match NewQuery moduleQuery with
            | inr err => inr (errors.Wrap err "NewQuery")
            | inl query =>
                let '(modName, mods) :=
                  foldl (moduleClause path content query) ("", mods st)
                        (Exec query tree) in
                match NewQuery functionQuery with
                | inr err => inr (errors.Wrap err "NewQuery")
                | inl query =>
                    let functionsByMod :=
                      foldl (functionDefinition content modName query)
                            (functionsByMod st) (Exec query tree) in
                    inl {| files := files; bytes := bytes; mods := mods;
                           functionsByMod := functionsByMod |}
                end
            end
        end
    end.

(** The loop over the sources, left at the first error. *)
Fixpoint indexSources (ctx : context.Context) (dirFS : fs.FS)
    (st : locals) (sources : list string) : locals + error :=
  match sources with
  | [] => inl st
  | path :: rest =>
      match indexSource ctx dirFS st path with
      | inr err => inr err
      | inl st' => indexSources ctx dirFS st' rest
      end
  end.

(** The body of the loop over [mods] (lines 239 to 255). *)
Definition modulePage (functionsByMod : gmap string (list schema.Section))
    (pages : list schema.Page) (entry : string * moduleInfo)
    : list schema.Page :=
  let '(modName, moduleInfo) := entry in
  let functionsSection :=
    {| schema.ID := "func";
       schema.ShortLabel := "func";
       schema.Label := "Functions";
       schema.Detail := "";
       schema.SearchKey := [];
       schema.Category := true;
       schema.Children := functionsByMod !!! modName |} in
  pages ++ [ {| schema.Path := path moduleInfo;
                schema.Title := "Module " +:+ modName;
                schema.PageDetail := docs moduleInfo;
                schema.PageSearchKey := [modName];
                schema.Sections := [functionsSection] |} ].

(** The initial values of the variables (lines 111 to 114). *)
Definition initLocals : locals :=
  {| files := 0; bytes := 0; mods := ∅; functionsByMod := ∅ |}.

(** [pythonIndexer.IndexDir(ctx, dir)], where [dirFS] is [os.DirFS(dir)]
    and [range] the order in which the loop of line 239 visits [mods].
    The result is the pair that the Go function returns: an Index or
    nil, and an error or nil. *)
Definition IndexDir (range : MapRange) (ctx : context.Context)
    (dirFS : fs.FS) : option schema.Index * option error :=
  match fs.WalkDir dirFS walkFn [] with
  | (_, Some err) => (None, Some (errors.Wrap err "WalkDir"))
  | (sources, None) =>
      match indexSources ctx dirFS initLocals sources with
      | inr err => (None, Some err)
      | inl st =>
          let pages :=
            foldl (modulePage (functionsByMod st)) []
                  (range (map_to_list (mods st))) in
          (Some {| schema.SchemaVersion := schema.LatestVersion;
                   schema.Language := schema.LanguagePython;
                   schema.NumFiles := files st;
                   schema.NumBytes := bytes st;
                   schema.Libraries :=
                     [ {| schema.Name := "TODO";
                          schema.Repository := "TODO";
                          schema.LibraryID := "TODO";
                          schema.Version := "TODO";
                          schema.VersionType := "TODO";
                          schema.Pages := pages |} ] |},
           None)
      end
  end.

(** *** The run, source by source

    The definitions below restate what the loop does with one source, to
    name in the statements the files it indexes, the names it finds and
    the Sections it makes. *)

(** The sources the walk collects: the files with extension [.py] or
    [.py3]. *)
Definition discovered (dirFS : fs.FS) : list string :=
  filter (fun p => isSource p = true) (fs.allFiles dirFS).

(** The sources the loop does not skip. *)
Definition indexed (dirFS : fs.FS) : list string :=
  filter (fun p => isTest p = false) (discovered dirFS).

(** The number of bytes of a file. *)
Definition fileSize (dirFS : fs.FS) (p : string) : Z :=
  match fs.ReadFile dirFS p with
  | inl content => len content
  | inr _ => 0
  end.

(** The number of bytes of a list of files. *)
Definition totalSize (dirFS : fs.FS) (ps : list string) : Z :=
  foldr Z.add 0%Z (map (fileSize dirFS) ps).

(** What the loop holds of a source once it is read and parsed and the
    two queries are made. *)
Record parsed : Type := mkParsed {
  pContent : string;
  pTree : Tree;
  pModuleQ : Query;
  pFunctionQ : Query
}.

(** The steps of the loop that can fail, for a source that is not
    skipped. *)
Definition parseSource (ctx : context.Context) (dirFS : fs.FS)
    (p : string) : parsed + error :=
  match fs.ReadFile dirFS p with
  | inr err => inr (errors.Wrap err "ReadFile")
  | inl content =>
      match ParseCtx ctx content with
      | inr err => inr (errors.Wrap err "ParseCtx")
      | inl tree =>
          match NewQuery moduleQuery with
          | inr err => inr (errors.Wrap err "NewQuery")
          | inl mq =>
              match NewQuery functionQuery with
              | inr err => inr (errors.Wrap err "NewQuery")
              | inl fq => inl (mkParsed content tree mq fq)
              end
          end
      end
  end.

(** The error with which the loop leaves at a source, if any. *)
Definition sourceError (ctx : context.Context) (dirFS : fs.FS)
    (p : string) : option error :=
  if isTest p then None
  else match parseSource ctx dirFS p with
       | inr err => Some err
       | inl _ => None
       end.

(** The module query matches in a source. *)
Definition hasModule (ctx : context.Context) (dirFS : fs.FS)
    (p : string) : bool :=
  match parseSource ctx dirFS p with
  | inl v => negb (bool_decide (Exec (pModuleQ v) (pTree v) = []))
  | inr _ => false
  end.

(** The value of [modName] when the loop over the function definitions
    of a source runs: empty unless the module query matched. *)
Definition sourceModName (ctx : context.Context) (dirFS : fs.FS)
    (p : string) : string :=
  if hasModule ctx dirFS p then moduleName p else "".

(** The names of the function definitions found in a source. *)
Definition sourceFuncNames (ctx : context.Context) (dirFS : fs.FS)
    (p : string) : list string :=
  match parseSource ctx dirFS p with
  | inl v =>
      map (matchFuncName (pContent v) (pFunctionQ v))
          (Exec (pFunctionQ v) (pTree v))
  | inr _ => []
  end.

(** The Sections made for the function definitions of a source. *)
Definition sourceSections (ctx : context.Context) (dirFS : fs.FS)
    (p : string) : list schema.Section :=
  match parseSource ctx dirFS p with
  | inl v =>
      omap (functionSection (pContent v) (sourceModName ctx dirFS p)
                            (pFunctionQ v))
           (Exec (pFunctionQ v) (pTree v))
  | inr _ => []
  end.

(** The function names found, over all indexed sources, under the module
    name [m], and the Sections made for them. *)
Definition moduleFuncNames (ctx : context.Context) (dirFS : fs.FS)
    (m : string) : list string :=
  flat_map (fun p => if decide (sourceModName ctx dirFS p = m)
                     then sourceFuncNames ctx dirFS p else [])
           (indexed dirFS).

Definition moduleSections (ctx : context.Context) (dirFS : fs.FS)
    (m : string) : list schema.Section :=
  flat_map (fun p => if decide (sourceModName ctx dirFS p = m)
                     then sourceSections ctx dirFS p else [])
           (indexed dirFS).

(** The category Section that groups the function Sections of a Page. *)
Definition functionsSection (children : list schema.Section)
    : schema.Section :=
  {| schema.ID := "func";
     schema.ShortLabel := "func";
     schema.Label := "Functions";
     schema.Detail := "";
     schema.SearchKey := [];
     schema.Category := true;
     schema.Children := children |}.

(** The Page of an entry of [mods], with the Sections of its module. *)
Definition pageOf (ctx : context.Context) (dirFS : fs.FS)
    (entry : string * moduleInfo) : schema.Page :=
  {| schema.Path := path (snd entry);
     schema.Title := "Module " +:+ fst entry;
     schema.PageDetail := docs (snd entry);
     schema.PageSearchKey := [fst entry];
     schema.Sections :=
       [functionsSection (moduleSections ctx dirFS (fst entry))] |}.

(** The Index of a run that visits the entries of [mods] in the given
    order. *)
Definition indexOf (ctx : context.Context) (dirFS : fs.FS)
    (entries : list (string * moduleInfo)) : schema.Index :=
  {| schema.SchemaVersion := schema.LatestVersion;
     schema.Language := schema.LanguagePython;
     schema.NumFiles := wrapInt (Z.of_nat (length (indexed dirFS)));
     schema.NumBytes := wrapInt (totalSize dirFS (indexed dirFS));
     schema.Libraries :=
       [ {| schema.Name := "TODO";
            schema.Repository := "TODO";
            schema.LibraryID := "TODO";
            schema.Version := "TODO";
            schema.VersionType := "TODO";
            schema.Pages := map (pageOf ctx dirFS) entries |} ] |}.

(** What the entries of [mods] are at the end of the loop over the
    sources: each is the module of an indexed source in which the module
    query matched, and each such source has its entry. *)
Definition modulesOf (ctx : context.Context) (dirFS : fs.FS)
    (ms : gmap string moduleInfo) : Prop :=
  (forall k info, ms !! k = Some info ->
     path info ∈ indexed dirFS /\ hasModule ctx dirFS (path info) = true
     /\ k = moduleName (path info))
  /\ (forall p, p ∈ indexed dirFS -> hasModule ctx dirFS p = true ->
        is_Some (ms !! moduleName p)).

(** The error of the first step of a run that fails, if any. *)
Definition firstFailure (ctx : context.Context) (dirFS : fs.FS)
    : option error :=
  match fs.walkError dirFS with
  | Some err => Some (errors.Wrap err "WalkDir")
  | None => head (omap (sourceError ctx dirFS) (discovered dirFS))
  end.

End Indexer.

(** *** The Page of a module name *)

Section Provenance.

Context {TS : TreeSitter}.

(** The docstring of a match of the module query (lines 173 and 174). *)
Definition matchDocs (content : string) (query : Query)
    (m : sitter.QueryMatch) : string :=
  sanitizeDocs
    (joinCaptures content (getCaptures query m !!! "module_docs") newline).

(** The docstring kept for a source: that of the last match of the
    module query. *)
Definition sourceDocs (ctx : context.Context) (dirFS : fs.FS)
    (p : string) : string :=
  match parseSource ctx dirFS p with
  | inl v =>
      match last (Exec (pModuleQ v) (pTree v)) with
      | Some m => matchDocs (pContent v) (pModuleQ v) m
      | None => ""
      end
  | inr _ => ""
  end.

(** The source that gives its Page to the module name [k]: the last
    indexed source of that module name in which the module query
    matches. *)
Definition moduleSource (ctx : context.Context) (dirFS : fs.FS)
    (k : string) : option string :=
  last (filter (fun p => hasModule ctx dirFS p = true /\ moduleName p = k)
               (indexed dirFS)).

End Provenance.


(** *** Properties of an Index *)

(** The Pages of an Index, over its Libraries. *)
Definition pagesOf (idx : schema.Index) : list schema.Page :=
  flat_map schema.Pages (schema.Libraries idx).

(** The canonical token path of a function of a module. *)
Definition canonicalPath (modName funcName : string) : list string :=
  [modName; "."; funcName].

(** The name starts with an underscore and does not end with one. *)
Definition isPrivateName (name : string) : Prop :=
  strings.HasPrefix name "_" = true /\ strings.HasSuffix name "_" = false.

(** The name starts and ends with an underscore. *)
Definition isSpecialName (name : string) : Prop :=
  strings.HasPrefix name "_" = true /\ strings.HasSuffix name "_" = true.

(** The identifiers are unique among the children of a Section, and so
    on below it. *)
Fixpoint uniqueBelow (s : schema.Section) : Prop :=
  NoDup (map schema.ID (schema.Children s))
  /\ foldr (fun c P => uniqueBelow c /\ P) True (schema.Children s).

(** The identifiers are unique among sibling Sections everywhere in an
    Index. *)
Definition uniqueSiblingIDs (idx : schema.Index) : Prop :=
  forall page, page ∈ pagesOf idx ->
    NoDup (map schema.ID (schema.Sections page))
    /\ forall s, s ∈ schema.Sections page -> uniqueBelow s.

(** The concatenation of the SearchKeys from a Page down to each
    function Section is the canonical path of the function. *)
Definition concatenatedKeysCanonical (idx : schema.Index) : Prop :=
  forall page c s,
    page ∈ pagesOf idx -> c ∈ schema.Sections page ->
    s ∈ schema.Children c ->
    schema.PageSearchKey page ++ schema.SearchKey c ++ schema.SearchKey s
    = canonicalPath (moduleName (schema.Path page)) (schema.ID s).



(** ** A reference instance of the binding

    A small line scanner in place of the Python grammar, to evaluate the
    indexer on concrete directories.  It sees what the two queries see
    in files made of top-level lines [def name(params):] and indented
    bodies: one match of the module query, without docstring, and one
    match of the function query per [def] line that starts a line, with
    the captures [func_name] and [func_params].  Parsing fails with
    [ctx.Err()] when the context is cancelled. *)

Module lineScanner.

(** The kinds of query. *)
Inductive query : Type := ModuleQ | FunctionQ.

(** The offsets at which a line of [s] starts; [pos] is the offset of
    [s] in the file and [bol] tells whether [s] starts a line. *)
Fixpoint lineStarts (s : string) (pos : nat) (bol : bool) : list nat :=
  match s with
  | EmptyString => []
  | String c s' =>
      (if bol then [pos] else [])
      ++ lineStarts s' (S pos) (Ascii.eqb c (ascii_of_nat 10))
  end.

(** The match for a line [def name(params)...] that starts at [pos]. *)
Definition defAt (content : string) (pos : nat) : option sitter.QueryMatch :=
  let line := String.substring pos (String.length content - pos) content in
  if String.prefix "def " line then
    match String.index 0 "(" line, String.index 0 ")" line with
    | Some i, Some j =>
        if (i <? j)%nat then
          Some (sitter.mkMatch
                  [ sitter.mkCapture 0 (sitter.mkNode (pos + 4) (pos + i));
                    sitter.mkCapture 1
                      (sitter.mkNode (pos + i) (pos + j + 1)) ])
        else None
    | _, _ => None
    end
  else None.

Definition parseCtx (ctx : context.Context) (content : string)
    : string + error :=
  match context.Err ctx with
  | Some err => inr err
  | None => inl content
  end.

Definition newQuery (pattern : string) : query + error :=
  if strings.Contains pattern "function_definition"
  then inl FunctionQ else inl ModuleQ.

Definition captureNameForId (q : query) (id : nat) : string :=
  match q with
  | ModuleQ => "module_docs"
  | FunctionQ =>
      nth id ["func_name"; "func_params"; "func_result"; "func_docs"] ""
  end.

Definition exec (q : query) (tree : string) : list sitter.QueryMatch :=
  match q with
  | ModuleQ => [sitter.mkMatch []]
  | FunctionQ => omap (defAt tree) (lineStarts tree 0 true)
  end.

Definition binding : TreeSitter := {|
  Tree := string;
  Query := query;
  ParseCtx := parseCtx;
  NewQuery := newQuery;
  CaptureNameForId := captureNameForId;
  Exec := exec
|}.

End lineScanner.

(** *** Sample directories *)

Definition lf : string := newline.

(** [pkg.py], with a public function, a private one and a special
    method name. *)
Definition pkgSource : string :=
  "def run(args):" +:+ lf +:+ "    return 0" +:+ lf +:+
  "def _helper(x):" +:+ lf +:+ "    return x" +:+ lf +:+
  "def __init__(self):" +:+ lf +:+ "    pass" +:+ lf.

(** A file that defines [f] twice. *)
Definition twiceSource : string :=
  "def f():" +:+ lf +:+ "    return 1" +:+ lf +:+
  "def f():" +:+ lf +:+ "    return 2" +:+ lf.

(** The files of a flat directory, by name and content. *)
Definition flatDir (fl : list (string * string)) : fs.FS :=
  {| fs.Stat := inl (fs.Dir "." (map (fun nc => fs.File (fst nc)) fl) None);
     fs.ReadFile := fun p =>
       match list_find (fun nc => String.eqb (fst nc) p = true) fl with
       | Some (_, nc) => inl (snd nc)
       | None => inr (ErrorString ("open " +:+ p +:+ ": file does not exist"))
       end |}.

Definition pkgDir : fs.FS := flatDir [("pkg.py", pkgSource)].

Definition twoModulesDir : fs.FS :=
  flatDir [("a.py", "def f():" +:+ lf); ("b.py", "def g():" +:+ lf)].

Definition twiceDir : fs.FS := flatDir [("m.py", twiceSource)].

Definition emptyDir : fs.FS := flatDir [].

(** A directory whose only source looks like a test. *)
Definition testsOnlyDir : fs.FS :=
  flatDir [("test_pkg.py", pkgSource); ("README.md", "doc")].

(** The Section of a function without docstring nor result type. *)
Definition plainFunction (modName name params : string) : schema.Section :=
  {| schema.ID := name;
     schema.ShortLabel := name;
     schema.Label := "def " +:+ name +:+ params;
     schema.Detail := "";
     schema.SearchKey := [modName; "."; name];
     schema.Category := false;
     schema.Children := [] |}.

(** The Page of a module without docstring, with its function Sections. *)
Definition plainPage (file modName : string)
    (functions : list schema.Section) : schema.Page :=
  {| schema.Path := file;
     schema.Title := "Module " +:+ modName;
     schema.PageDetail := "";
     schema.PageSearchKey := [modName];
     schema.Sections :=
       [ {| schema.ID := "func";
            schema.ShortLabel := "func";
            schema.Label := "Functions";
            schema.Detail := "";
            schema.SearchKey := [];
            schema.Category := true;
            schema.Children := functions |} ] |}.

(** An Index with the header of the sample runs. *)
Definition plainIndex (numFiles numBytes : Z) (pages : list schema.Page)
    : schema.Index :=
  {| schema.SchemaVersion := 1;
     schema.Language := "python";
     schema.NumFiles := numFiles;
     schema.NumBytes := numBytes;
     schema.Libraries :=
       [ {| schema.Name := "TODO";
            schema.Repository := "TODO";
            schema.LibraryID := "TODO";
            schema.Version := "TODO";
            schema.VersionType := "TODO";
            schema.Pages := pages |} ] |}.

Definition runSection : schema.Section := plainFunction "pkg" "run" "(args)".
Definition initSection : schema.Section :=
  plainFunction "pkg" "__init__" "(self)".
Definition pkgPage : schema.Page :=
  plainPage "pkg.py" "pkg" [runSection; initSection].

(** The Index of [pkgDir]. *)
Definition pkgIndex : schema.Index := plainIndex 1 86 [pkgPage].

Definition twicePage : schema.Page :=
  plainPage "m.py" "m" [plainFunction "m" "f" "()"; plainFunction "m" "f" "()"].

(** The Index of [twiceDir]. *)
Definition twiceIndex : schema.Index := plainIndex 1 44 [twicePage].

Definition aPage : schema.Page :=
  plainPage "a.py" "a" [plainFunction "a" "f" "()"].
Definition bPage : schema.Page :=
  plainPage "b.py" "b" [plainFunction "b" "g" "()"].

(** The Index of a directory without sources. *)
Definition emptyIndex : schema.Index := plainIndex 0 0 [].


(** A directory with a package, its tests and a text file. *)
Definition mixedDir : fs.FS :=
  {| fs.Stat :=
       inl (fs.Dir "."
              [ fs.File "README.md";
                fs.Dir "pkg" [fs.File "run.py"; fs.File "run_test.py"] None;
                fs.File "setup.py3" ]
              None);
     fs.ReadFile := fun p =>
       if String.eqb p "pkg/run.py" then inl ("def run():" +:+ lf)
       else if String.eqb p "setup.py3" then inl ("def setup():" +:+ lf)
       else inr (ErrorString ("open " +:+ p +:+ ": permission denied")) |}.

(** Two sources with the module name [a.b]. *)
Definition collidingDir : fs.FS :=
  {| fs.Stat :=
       inl (fs.Dir "." [fs.Dir "a" [fs.File "b.py"] None; fs.File "a.b.py"]
              None);
     fs.ReadFile := fun p =>
       if String.eqb p "a/b.py" then inl ("def f():" +:+ lf)
       else if String.eqb p "a.b.py" then inl ("def g():" +:+ lf)
       else inr (ErrorString ("open " +:+ p +:+ ": file does not exist")) |}.

(** The Index of [collidingDir]. *)
Definition collidingIndex : schema.Index :=
  plainIndex 2 18
    [plainPage "a.b.py" "a.b"
       [plainFunction "a.b" "f" "()"; plainFunction "a.b" "g" "()"]].

(** [mixedDir] with every file readable. *)
Definition mixedReadableDir : fs.FS :=
  {| fs.Stat := fs.Stat mixedDir;
     fs.ReadFile := fun p =>
       if String.eqb p "pkg/run.py" then inl ("def run():" +:+ lf)
       else if String.eqb p "setup.py3" then inl ("def setup():" +:+ lf)
       else inl "def other():" |}.

(** A directory whose name looks like a test. *)
Definition testsSubdir : fs.DirEntry :=
  fs.Dir "tests" [fs.File "util.py"; fs.Dir "data" [fs.File "gen.py"] None]
         None.

(** The match of the function query for [run] in [pkgSource]. *)
Definition runMatch : sitter.QueryMatch :=
  sitter.mkMatch [ sitter.mkCapture 0 (sitter.mkNode 4 7);
                   sitter.mkCapture 1 (sitter.mkNode 7 13) ].

(** Values for the constants of the schema package. *)
Definition sampleConstants : schema.Constants :=
  {| schema.LatestVersion := 1; schema.LanguagePython := "python" |}.

(** Two orders of visit of a map. *)
Definition inOrder : MapRange := fun entries => entries.
Definition backwards : MapRange := fun entries => rev entries.

(** * Properties *)

(** ** Names *)

Lemma substring_one (s : string) (i : nat) (c : ascii) :
  String.get i s = Some c ->
  String.substring i 1 s = String c EmptyString.
Proof.
  revert i; induction s as [|a s IH]; intros i Hget; simpl in *.
  - discriminate.
  - destruct i as [|i]; simpl in *.
    + injection Hget as ->. now destruct s.
    + now apply IH.
Qed.

Lemma get_in_range (s : string) (i : nat) :
  (i < String.length s)%nat -> exists c, String.get i s = Some c.
Proof.
  revert i; induction s as [|a s IH]; intros i Hlt; simpl in *; [lia|].
  destruct i as [|i]; [eauto|]. apply IH; lia.
Qed.

Lemma HasPrefix_underscore (s : string) :
  strings.HasPrefix s "_" = true <-> String.get 0 s = Some "_"%char.
Proof.
  unfold strings.HasPrefix.
  destruct s as [|a s]; [cbn; split; discriminate|].
  cbn [String.prefix String.get].
  destruct (Ascii.ascii_dec "_"%char a) as [<-|Hne].
  - split; [reflexivity|]. now destruct s.
  - split; [discriminate|]. intros [= ->]. contradiction.
Qed.

Lemma HasSuffix_underscore (s : string) :
  strings.HasSuffix s "_" = true <->
  String.get (String.length s - 1) s = Some "_"%char.
Proof.
  unfold strings.HasSuffix.
  destruct (decide (String.length s = 0)%nat) as [H0|Hpos].
  - destruct s; [|discriminate]. simpl. split; discriminate.
  - destruct (get_in_range s (String.length s - 1)) as [c Hc]; [lia|].
    change (String.length "_") with 1%nat.
    rewrite (substring_one _ _ _ Hc), Hc.
    destruct (Nat.leb_spec 1 (String.length s)) as [_|?]; [|lia].
    rewrite andb_true_l, String.eqb_eq.
    split; [now intros [= ->] | now intros [= ->]].
Qed.

(** The byte test of the code is the test on the name that the
    specification words: a leading underscore without a trailing one. *)
Lemma unexported_private (name : string) :
  unexported name = true <-> isPrivateName name.
Proof.
  unfold unexported, isPrivateName.
  rewrite !andb_true_iff, negb_true_iff, bool_decide_eq_true,
    bool_decide_eq_false, Nat.ltb_lt, HasPrefix_underscore.
  rewrite <- (not_true_iff_false (strings.HasSuffix _ _)),
    HasSuffix_underscore.
  split; [tauto|]. intros [Hp Hs]. repeat split; auto.
  destruct name; [discriminate|simpl; lia].
Qed.

Lemma special_not_unexported (name : string) :
  isSpecialName name -> unexported name = false.
Proof.
  intros [Hp Hs]. apply not_true_iff_false. rewrite unexported_private.
  intros [_ Hs']. congruence.
Qed.

(** ** The walk *)

Lemma DirEntry_forall_ind (P : fs.DirEntry -> Prop) :
  (forall name, P (fs.File name)) ->
  (forall name entries readErr,
      Forall P entries -> P (fs.Dir name entries readErr)) ->
  forall d, P d.
Proof.
  intros HF HD. fix IH 1. intros [name|name entries readErr].
  - apply HF.
  - apply HD. induction entries as [|d ds IHds]; constructor.
    + apply IH.
    + exact IHds.
Qed.

Lemma walkDir_Dir {St : Type} (fn : fs.WalkDirFunc St) name n entries readErr
    (st : St) :
  fs.walkDir fn name (fs.Dir n entries readErr) st =
  match fn name (Some (fs.Dir n entries readErr)) None st with
  | (st1, Some e) => (st1, Some e)
  | (st1, None) =>
      match readErr with
      | None => fs.walkEntries fn name entries st1
      | Some e =>
          match fn name (Some (fs.Dir n entries readErr)) (Some e) st1 with
          | (st2, Some e') => (st2, Some e')
          | (st2, None) => fs.walkEntries fn name entries st2
          end
      end
  end.
Proof. reflexivity. Qed.

(** The walk of the indexer returns the first read error below the
    entry; without one it appends the sources below the entry, in
    order. *)
Lemma walkDir_walkFn (d : fs.DirEntry) :
  forall name sources,
    snd (fs.walkDir walkFn name d sources) = head (fs.readErrors d)
    /\ (fs.readErrors d = [] ->
        fst (fs.walkDir walkFn name d sources)
        = sources ++ filter (fun p => isSource p = true)
                            (fs.filesUnder name d)).
Proof.
  induction d as [n|n entries readErr IH] using DirEntry_forall_ind;
    intros name sources.
  - simpl. split; [reflexivity|]. intros _.
    destruct (isSource name) eqn:Hs; simpl.
    + rewrite filter_cons_True by assumption. reflexivity.
    + rewrite filter_cons_False by congruence. now rewrite app_nil_r.
  - rewrite walkDir_Dir. cbn [walkFn fs.IsDir negb].
    destruct readErr as [e|]; [now split|].
    cbn [fs.readErrors app fs.filesUnder].
    revert sources.
    induction IH as [|d ds Hd _ IHds]; intros sources; simpl.
    + split; [reflexivity|]. intros _. now rewrite app_nil_r.
    + destruct (Hd (fs.pathJoin name (fs.Name d)) sources) as [Herr Hok].
      destruct (fs.walkDir walkFn (fs.pathJoin name (fs.Name d)) d sources)
        as [s' [e|]] eqn:Hw; simpl in Herr, Hok.
      * destruct (fs.readErrors d); [discriminate|]. now split.
      * destruct (fs.readErrors d) as [|? ?]; [|discriminate].
        specialize (Hok eq_refl). subst s'. simpl.
        destruct (IHds (sources ++ filter (fun p => isSource p = true)
                         (fs.filesUnder (fs.pathJoin name (fs.Name d)) d)))
          as [Herr' Hok'].
        split; [exact Herr'|]. intros Hnil.
        rewrite (Hok' Hnil), filter_app, app_assoc. reflexivity.
Qed.

Lemma WalkDir_error (dirFS : fs.FS) :
  snd (fs.WalkDir dirFS walkFn []) = fs.walkError dirFS.
Proof.
  unfold fs.WalkDir, fs.walkError. destruct (fs.Stat dirFS) as [d|e].
  - apply walkDir_walkFn.
  - reflexivity.
Qed.

Lemma WalkDir_sources (dirFS : fs.FS) :
  fs.walkError dirFS = None ->
  fs.WalkDir dirFS walkFn [] = (discovered dirFS, None).
Proof.
  intros Hok. pose proof (WalkDir_error dirFS) as Herr. rewrite Hok in Herr.
  unfold fs.WalkDir, fs.walkError, discovered, fs.allFiles in *.
  destruct (fs.Stat dirFS) as [d|e]; [|discriminate].
  destruct (walkDir_walkFn d "." []) as [_ Hsrc].
  destruct (fs.walkDir walkFn "." d []) as [srcs err]. simpl in *. subst err.
  rewrite Hsrc; [reflexivity|]. now destruct (fs.readErrors d).
Qed.

(** ** Integers *)

Lemma wrapInt_small (z : Z) :
  (- 2 ^ 63 <= z <= maxInt)%Z -> wrapInt z = z.
Proof.
  unfold wrapInt, maxInt, intBits. intros Hz.
  change (2 ^ (64 - 1))%Z with 9223372036854775808%Z in *.
  change (2 ^ 63)%Z with 9223372036854775808%Z in *.
  change (2 ^ 64)%Z with 18446744073709551616%Z.
  rewrite Z.mod_small; lia.
Qed.

Lemma wrapInt_add_l (a b : Z) : wrapInt (wrapInt a + b) = wrapInt (a + b).
Proof.
  unfold wrapInt, intBits.
  change (2 ^ (64 - 1))%Z with 9223372036854775808%Z.
  change (2 ^ 64)%Z with 18446744073709551616%Z.
  f_equal.
  replace ((a + 9223372036854775808) mod 18446744073709551616
           - 9223372036854775808 + b + 9223372036854775808)%Z
    with ((a + 9223372036854775808) mod 18446744073709551616 + b)%Z by lia.
  rewrite Zplus_mod_idemp_l. f_equal. lia.
Qed.

(** ** The loops over the matches *)

Section Loops.

Context {TS : TreeSitter}.

Lemma moduleClauses_name p content q acc ms :
  fst (foldl (moduleClause p content q) acc ms)
  = match ms with [] => fst acc | _ => moduleName p end.
Proof.
  revert acc; induction ms as [|m ms IH]; intros acc; [reflexivity|].
  simpl. rewrite IH. now destruct ms.
Qed.

Lemma moduleClauses_lookup p content q acc ms k info :
  snd (foldl (moduleClause p content q) acc ms) !! k = Some info ->
  snd acc !! k = Some info
  \/ (ms <> [] /\ k = moduleName p /\ path info = p).
Proof.
  revert acc; induction ms as [|m ms IH]; intros acc Hk; [now left|].
  simpl in Hk. apply IH in Hk as [Hk|(_ & -> & Hp)].
  - cbn [moduleClause snd] in Hk.
    destruct (decide (moduleName p = k)) as [<-|Hne].
    + rewrite lookup_insert_eq in Hk. injection Hk as <-. now right.
    + rewrite lookup_insert_ne in Hk by assumption. now left.
  - now right.
Qed.

Lemma moduleClauses_keep p content q acc ms k :
  is_Some (snd acc !! k) ->
  is_Some (snd (foldl (moduleClause p content q) acc ms) !! k).
Proof.
  revert acc; induction ms as [|m ms IH]; intros acc Hk; [assumption|].
  simpl. apply IH. cbn [moduleClause snd].
  destruct (decide (moduleName p = k)) as [<-|Hne].
  - rewrite lookup_insert_eq. eauto.
  - now rewrite lookup_insert_ne.
Qed.

Lemma moduleClauses_present p content q acc ms :
  ms <> [] ->
  is_Some (snd (foldl (moduleClause p content q) acc ms) !! moduleName p).
Proof.
  destruct ms as [|m ms]; [congruence|]. intros _. simpl.
  apply moduleClauses_keep. cbn [moduleClause snd].
  rewrite lookup_insert_eq. eauto.
Qed.

Lemma functionDefinitions_lookup content modName q fbm ms k :
  foldl (functionDefinition content modName q) fbm ms !!! k
  = fbm !!! k
    ++ (if decide (modName = k)
        then omap (functionSection content modName q) ms else []).
Proof.
  revert fbm; induction ms as [|m ms IH]; intros fbm.
  - simpl. destruct (decide _); now rewrite app_nil_r.
  - cbn [foldl]. rewrite IH. unfold functionDefinition. simpl omap.
    destruct (functionSection content modName q m) as [s|]; [|reflexivity].
    destruct (decide (modName = k)) as [->|Hne].
    + rewrite lookup_total_insert_eq. now rewrite <- app_assoc.
    + now rewrite lookup_total_insert_ne.
Qed.

(** The loop over the pages appends one Page per entry, in order. *)
Lemma modulePages_app fbm acc entries :
  foldl (modulePage fbm) acc entries
  = acc ++ flat_map (modulePage fbm []) entries.
Proof.
  revert acc; induction entries as [|[k info] es IH]; intros acc.
  - simpl. now rewrite app_nil_r.
  - cbn [foldl flat_map]. rewrite IH. cbn [modulePage].
    now rewrite <- app_assoc.
Qed.

End Loops.

(** ** The loop over the sources *)

Lemma wrapInt_range (z : Z) : (- 2 ^ 63 <= wrapInt z <= maxInt)%Z.
Proof.
  unfold wrapInt, maxInt, intBits.
  change (2 ^ (64 - 1))%Z with 9223372036854775808%Z.
  change (2 ^ 63)%Z with 9223372036854775808%Z.
  change (2 ^ 64)%Z with 18446744073709551616%Z.
  pose proof (Z.mod_pos_bound (z + 9223372036854775808)
                18446744073709551616 eq_refl). lia.
Qed.

Section Run.

Context {TS : TreeSitter}.
Variables (ctx : context.Context) (dirFS : fs.FS).

Lemma indexSource_test st p :
  isTest p = true -> indexSource ctx dirFS st p = inl st.
Proof. unfold indexSource. now intros ->. Qed.

Lemma indexSource_error st p e :
  isTest p = false -> parseSource ctx dirFS p = inr e ->
  indexSource ctx dirFS st p = inr e.
Proof.
  unfold indexSource, parseSource. intros -> Hp. cbv beta iota zeta.
  destruct (fs.ReadFile dirFS p) as [content|?]; [|by injection Hp as <-].
  destruct (ParseCtx ctx content) as [tree|?]; [|by injection Hp as <-].
  destruct (NewQuery moduleQuery) as [mq|?]; [|by injection Hp as <-].
  destruct (foldl _ _ _) as [modName mods'].
  destruct (NewQuery functionQuery) as [fq|?];
    [discriminate|by injection Hp as <-].
Qed.

Lemma indexSource_ok st p v :
  isTest p = false -> parseSource ctx dirFS p = inl v ->
  indexSource ctx dirFS st p =
  inl {| files := wrapInt (files st + 1);
         bytes := wrapInt (bytes st + fileSize dirFS p);
         mods := snd (foldl (moduleClause p (pContent v) (pModuleQ v))
                            ("", mods st) (Exec (pModuleQ v) (pTree v)));
         functionsByMod :=
           foldl (functionDefinition (pContent v)
                    (sourceModName ctx dirFS p) (pFunctionQ v))
                 (functionsByMod st) (Exec (pFunctionQ v) (pTree v)) |}.
Proof.
  unfold indexSource, sourceModName, hasModule, fileSize. intros -> Hp.
  rewrite Hp. unfold parseSource in Hp. cbv beta iota zeta.
  destruct (fs.ReadFile dirFS p) as [content|?]; [|discriminate].
  destruct (ParseCtx ctx content) as [tree|?]; [|discriminate].
  destruct (NewQuery moduleQuery) as [mq|?]; [|discriminate].
  destruct (NewQuery functionQuery) as [fq|?]; [|discriminate].
  injection Hp as <-. cbn [pContent pTree pModuleQ pFunctionQ].
  pose proof (moduleClauses_name p content mq ("", mods st) (Exec mq tree))
    as Hname.
  destruct (foldl (moduleClause p content mq) _ _) as [modName mods'].
  cbn [fst snd] in *. subst modName.
  destruct (Exec mq tree); reflexivity.
Qed.

(** The loop stops with the error of the first source that fails. *)
Lemma indexSources_error srcs : forall st e,
  head (omap (sourceError ctx dirFS) srcs) = Some e ->
  indexSources ctx dirFS st srcs = inr e.
Proof.
  induction srcs as [|p srcs IH]; intros st e He; [discriminate|].
  simpl in He. cbn [indexSources]. unfold sourceError in He at 1.
  destruct (isTest p) eqn:Ht.
  - rewrite indexSource_test by assumption. now apply IH.
  - destruct (parseSource ctx dirFS p) as [v|e'] eqn:Hp.
    + rewrite (indexSource_ok _ _ v) by assumption. now apply IH.
    + injection He as ->. now rewrite (indexSource_error _ _ e).
Qed.

(** Without a failing source the loop ends, and its variables hold the
    counts, the modules and the Sections of the sources it indexed. *)
Lemma indexSources_ok srcs : forall st,
  head (omap (sourceError ctx dirFS) srcs) = None ->
  exists st',
    indexSources ctx dirFS st srcs = inl st'
    /\ ((- 2 ^ 63 <= files st <= maxInt)%Z ->
        files st' =
        wrapInt (files st
                 + Z.of_nat (length (filter (fun p => isTest p = false) srcs))))
    /\ ((- 2 ^ 63 <= bytes st <= maxInt)%Z ->
        bytes st' =
        wrapInt (bytes st
                 + totalSize dirFS (filter (fun p => isTest p = false) srcs)))
    /\ (forall k,
          functionsByMod st' !!! k =
          functionsByMod st !!! k
          ++ flat_map (fun p => if decide (sourceModName ctx dirFS p = k)
                                then sourceSections ctx dirFS p else [])
                      (filter (fun p => isTest p = false) srcs))
    /\ (forall k info,
          mods st' !! k = Some info ->
          mods st !! k = Some info
          \/ exists p, p ∈ filter (fun p => isTest p = false) srcs
                       /\ hasModule ctx dirFS p = true
                       /\ k = moduleName p /\ path info = p)
    /\ (forall k, is_Some (mods st !! k) -> is_Some (mods st' !! k))
    /\ (forall p, p ∈ filter (fun p => isTest p = false) srcs ->
          hasModule ctx dirFS p = true ->
          is_Some (mods st' !! moduleName p)).
Proof.
  induction srcs as [|p srcs IH]; intros st He.
  - exists st. split; [reflexivity|]. cbn.
    repeat split.
    + intros Hr. rewrite Z.add_0_r. symmetry. now apply wrapInt_small.
    + intros Hr. rewrite Z.add_0_r. symmetry. now apply wrapInt_small.
    + intros k. now rewrite app_nil_r.
    + intros k info Hk. now left.
    + auto.
    + intros q Hq. now apply elem_of_nil in Hq.
  - simpl in He. cbn [indexSources]. unfold sourceError in He at 1.
    destruct (isTest p) eqn:Ht.
    + rewrite indexSource_test by assumption.
      rewrite filter_cons_False by congruence. now apply IH.
    + destruct (parseSource ctx dirFS p) as [v|e'] eqn:Hp; [|discriminate].
      rewrite (indexSource_ok _ _ v) by assumption.
      rewrite filter_cons_True by assumption.
      destruct (IH (mkLocals (wrapInt (files st + 1))
                      (wrapInt (bytes st + fileSize dirFS p))
                      (snd (foldl (moduleClause p (pContent v) (pModuleQ v))
                              ("", mods st) (Exec (pModuleQ v) (pTree v))))
                      (foldl (functionDefinition (pContent v)
                                (sourceModName ctx dirFS p) (pFunctionQ v))
                             (functionsByMod st)
                             (Exec (pFunctionQ v) (pTree v)))) He)
        as (st' & Hrun & Hfiles & Hbytes & Hfuncs & Hmods & Hkeep & Hhas).
      cbn [files bytes mods functionsByMod] in *.
      exists st'. split; [exact Hrun|].
      assert (Hmod : hasModule ctx dirFS p
                     = negb (bool_decide (Exec (pModuleQ v) (pTree v) = []))).
      { unfold hasModule. now rewrite Hp. }
      repeat split.
      * intros _. rewrite Hfiles by apply wrapInt_range.
        rewrite wrapInt_add_l. f_equal. cbn [length]. lia.
      * intros _. rewrite Hbytes by apply wrapInt_range.
        rewrite wrapInt_add_l. f_equal. unfold totalSize. cbn [map foldr]. lia.
      * intros k. rewrite Hfuncs, functionDefinitions_lookup.
        cbn [flat_map]. rewrite <- app_assoc. do 2 f_equal.
        unfold sourceSections. rewrite Hp.
        destruct (decide (sourceModName ctx dirFS p = k)); reflexivity.
      * intros k info Hk. apply Hmods in Hk as [Hk|(q & Hq & Hrest)].
        -- apply moduleClauses_lookup in Hk as [Hk|(Hne & -> & Hpath)].
           ++ now left.
           ++ right. exists p.
              repeat split; [apply list_elem_of_here| |assumption].
              rewrite Hmod. now rewrite bool_decide_eq_false_2.
        -- right. exists q. split; [now apply list_elem_of_further|assumption].
      * intros k Hk. apply Hkeep. now apply moduleClauses_keep.
      * intros q Hq Hm. apply elem_of_cons in Hq as [->|Hq]; [|now apply Hhas].
        apply Hkeep. apply moduleClauses_present.
        rewrite Hmod in Hm. apply negb_true_iff, bool_decide_eq_false in Hm.
        exact Hm.
Qed.

End Run.

(** ** The run as a whole *)

Section Whole.

Context {TS : TreeSitter} {SC : schema.Constants}.

(** A run either fails, with the first failure, whatever the order of
    the visit of [mods], or returns the Index of the modules found, its
    Pages in the order of the visit. *)
Lemma IndexDir_cases (ctx : context.Context) (dirFS : fs.FS) :
  (exists e, firstFailure ctx dirFS = Some e
             /\ forall range, IndexDir range ctx dirFS = (None, Some e))
  \/ (firstFailure ctx dirFS = None
      /\ exists ms, modulesOf ctx dirFS ms
           /\ forall range,
                IndexDir range ctx dirFS
                = (Some (indexOf ctx dirFS (range (map_to_list ms))), None)).
Proof.
  unfold firstFailure, IndexDir.
  pose proof (WalkDir_error dirFS) as Hwe.
  destruct (fs.walkError dirFS) as [e|] eqn:Hw.
  - left. eexists. split; [reflexivity|]. intros range.
    destruct (fs.WalkDir dirFS walkFn []) as [srcs err]. simpl in Hwe.
    now subst err.
  - clear Hwe. rewrite (WalkDir_sources _ Hw).
    destruct (head (omap (sourceError ctx dirFS) (discovered dirFS)))
      as [e|] eqn:Hh.
    + left. exists e. split; [reflexivity|]. intros range.
      now rewrite (indexSources_error _ _ _ _ _ Hh).
    + right. split; [reflexivity|].
      destruct (indexSources_ok ctx dirFS _ initLocals Hh)
        as (st & Hrun & Hfiles & Hbytes & Hfuncs & Hmods & _ & Hhas).
      exists (mods st). split; [split|].
      * intros k info Hk. apply Hmods in Hk as [Hk|(p & Hp & Hm & -> & Hpath)].
        -- cbn in Hk. now rewrite lookup_empty in Hk.
        -- subst p. auto.
      * exact Hhas.
      * intros range. rewrite Hrun. unfold indexOf. do 3 f_equal.
        -- rewrite Hfiles; [reflexivity|]. cbn. unfold maxInt, intBits. lia.
        -- rewrite Hbytes; [reflexivity|]. cbn. unfold maxInt, intBits. lia.
        -- do 2 f_equal. rewrite modulePages_app. cbn [app].
           induction (range (map_to_list (mods st))) as [|[k info] es IH];
             [reflexivity|].
           cbn [flat_map map]. rewrite IH. cbn [modulePage app].
           unfold pageOf, functionsSection. cbn [fst snd].
           do 4 f_equal. rewrite Hfuncs. cbn [functionsByMod initLocals].
           now rewrite lookup_total_empty.
Qed.

End Whole.

(** ** Sections and Pages of a run *)

Lemma elem_of_map {A B : Type} (f : A -> B) (l : list A) (y : B) :
  y ∈ map f l <-> exists x, y = f x /\ x ∈ l.
Proof.
  rewrite list_elem_of_In, in_map_iff. split.
  - intros (x & <- & Hx). exists x. now rewrite list_elem_of_In.
  - intros (x & -> & Hx). exists x. now rewrite <- list_elem_of_In.
Qed.

Lemma elem_of_flat_map {A B : Type} (f : A -> list B) (l : list A) (y : B) :
  y ∈ flat_map f l <-> exists x, x ∈ l /\ y ∈ f x.
Proof.
  rewrite list_elem_of_In, in_flat_map. split.
  - intros (x & Hx & Hy). exists x. now rewrite !list_elem_of_In.
  - intros (x & Hx & Hy). exists x. now rewrite <- !list_elem_of_In.
Qed.

Lemma totalSize_nonneg (dirFS : fs.FS) (ps : list string) :
  (0 <= totalSize dirFS ps)%Z.
Proof.
  unfold totalSize. induction ps as [|p ps IH]; simpl; [lia|].
  assert (0 <= fileSize dirFS p)%Z; [|lia].
  unfold fileSize, len. destruct (fs.ReadFile dirFS p); lia.
Qed.

Section Sections.

Context {TS : TreeSitter}.

Lemma functionSection_Some content modName q m s :
  functionSection content modName q m = Some s ->
  schema.ID s = matchFuncName content q m
  /\ schema.ShortLabel s = schema.ID s
  /\ schema.SearchKey s = [modName; "."; schema.ID s]
  /\ schema.Category s = false
  /\ schema.Children s = []
  /\ unexported (schema.ID s) = false.
Proof.
  unfold functionSection.
  destruct (unexported (matchFuncName content q m)) eqn:Hu; [discriminate|].
  intros [= <-]. repeat split; solve [reflexivity | exact Hu].
Qed.

Lemma functionSection_retained content modName q m :
  unexported (matchFuncName content q m) = false ->
  exists s, functionSection content modName q m = Some s
            /\ schema.ID s = matchFuncName content q m.
Proof.
  intros Hu. unfold functionSection. rewrite Hu. eexists. split; reflexivity.
Qed.

(** The identifiers of the Sections of the matches are the names that
    are not unexported, in order. *)
Lemma functionSections_IDs content modName q ms :
  map schema.ID (omap (functionSection content modName q) ms)
  = filter (fun n => unexported n = false)
           (map (matchFuncName content q) ms).
Proof.
  induction ms as [|m ms IH]; [reflexivity|].
  change (omap (functionSection content modName q) (m :: ms))
    with (match functionSection content modName q m with
          | Some s => s :: omap (functionSection content modName q) ms
          | None => omap (functionSection content modName q) ms
          end).
  cbn [map].
  destruct (functionSection content modName q m) as [s|] eqn:Hs.
  - apply functionSection_Some in Hs as (Hid & _ & _ & _ & _ & Hu).
    rewrite Hid in Hu. rewrite filter_cons_True by assumption.
    cbn [map]. now rewrite IH, Hid.
  - unfold functionSection in Hs.
    destruct (unexported (matchFuncName content q m)) eqn:Hu; [|discriminate].
    rewrite filter_cons_False by congruence. exact IH.
Qed.

Variables (ctx : context.Context) (dirFS : fs.FS).

Lemma sourceSections_IDs p :
  map schema.ID (sourceSections ctx dirFS p)
  = filter (fun n => unexported n = false) (sourceFuncNames ctx dirFS p).
Proof.
  unfold sourceSections, sourceFuncNames.
  destruct (parseSource ctx dirFS p); [apply functionSections_IDs|reflexivity].
Qed.

Lemma moduleSections_IDs k :
  map schema.ID (moduleSections ctx dirFS k)
  = filter (fun n => unexported n = false) (moduleFuncNames ctx dirFS k).
Proof.
  unfold moduleSections, moduleFuncNames.
  induction (indexed dirFS) as [|p ps IH]; [reflexivity|].
  cbn [flat_map]. rewrite map_app, filter_app, IH. f_equal.
  destruct (decide (sourceModName ctx dirFS p = k));
    [apply sourceSections_IDs|reflexivity].
Qed.

(** Every Section made for the module name [k] is a leaf, carries the
    key of [k] and the name of a function that is not unexported. *)
Lemma moduleSections_shape k s :
  s ∈ moduleSections ctx dirFS k ->
  schema.ShortLabel s = schema.ID s
  /\ schema.SearchKey s = [k; "."; schema.ID s]
  /\ schema.Category s = false
  /\ schema.Children s = []
  /\ unexported (schema.ID s) = false
  /\ schema.ID s ∈ moduleFuncNames ctx dirFS k.
Proof.
  intros Hs.
  assert (Hid : schema.ID s ∈ moduleFuncNames ctx dirFS k).
  { assert (H : schema.ID s ∈ map schema.ID (moduleSections ctx dirFS k))
      by (apply elem_of_map; eauto).
    rewrite moduleSections_IDs in H.
    now apply list_elem_of_filter in H as [_ H]. }
  unfold moduleSections in Hs.
  apply elem_of_flat_map in Hs as (p & Hp & Hs).
  destruct (decide (sourceModName ctx dirFS p = k)) as [<-|];
    [|now apply elem_of_nil in Hs].
  unfold sourceSections in Hs.
  destruct (parseSource ctx dirFS p) as [v|]; [|now apply elem_of_nil in Hs].
  apply list_elem_of_omap in Hs as (m & _ & Hm).
  apply functionSection_Some in Hm as (_ & H1 & H2 & H3 & H4 & H5).
  auto 10.
Qed.

(** A function found in an indexed source whose module query matched
    has its Section under the name of the module, unless its name is
    unexported. *)
Lemma moduleSections_retained p name :
  p ∈ indexed dirFS -> hasModule ctx dirFS p = true ->
  name ∈ sourceFuncNames ctx dirFS p -> unexported name = false ->
  exists s, s ∈ moduleSections ctx dirFS (moduleName p)
            /\ schema.ID s = name.
Proof.
  intros Hp Hm Hn Hu.
  assert (Hk : sourceModName ctx dirFS p = moduleName p)
    by (unfold sourceModName; now rewrite Hm).
  unfold sourceFuncNames in Hn.
  destruct (parseSource ctx dirFS p) as [v|] eqn:Hv;
    [|now apply elem_of_nil in Hn].
  apply elem_of_map in Hn as (m & -> & Hin).
  destruct (functionSection_retained (pContent v) (moduleName p)
              (pFunctionQ v) m Hu) as (s & Hs & Hid).
  exists s. split; [|exact Hid].
  unfold moduleSections. apply elem_of_flat_map. exists p. split; [exact Hp|].
  rewrite decide_True by exact Hk.
  unfold sourceSections. rewrite Hv, Hk.
  apply list_elem_of_omap. eauto.
Qed.

End Sections.

(** ** The Index that [IndexDir] returns *)

Section Returned.

Context {TS : TreeSitter} {SC : schema.Constants}.
Variables (ctx : context.Context) (dirFS : fs.FS).

Lemma IndexDir_returned range idx :
  IndexDir range ctx dirFS = (Some idx, None) ->
  firstFailure ctx dirFS = None
  /\ exists ms, modulesOf ctx dirFS ms
                /\ idx = indexOf ctx dirFS (range (map_to_list ms)).
Proof.
  intros Hrun.
  destruct (IndexDir_cases ctx dirFS)
    as [(e & _ & Hfail)|(Hnone & ms & Hms & Hok)].
  - rewrite Hfail in Hrun. discriminate.
  - split; [exact Hnone|]. exists ms. split; [exact Hms|].
    rewrite Hok in Hrun. now injection Hrun as <-.
Qed.

Lemma pagesOf_indexOf entries :
  pagesOf (indexOf ctx dirFS entries) = map (pageOf ctx dirFS) entries.
Proof. unfold pagesOf, indexOf. cbn. apply app_nil_r. Qed.

(** Every Page of the Index is the Page of an indexed source in which
    the module query matched, under the name of its module. *)
Lemma returned_page range idx page :
  visitsAll range ->
  IndexDir range ctx dirFS = (Some idx, None) ->
  page ∈ pagesOf idx ->
  exists info,
    page = pageOf ctx dirFS (moduleName (path info), info)
    /\ path info ∈ indexed dirFS
    /\ hasModule ctx dirFS (path info) = true.
Proof.
  intros Hrange Hrun Hpage.
  apply IndexDir_returned in Hrun as (_ & ms & [Hms _] & ->).
  rewrite pagesOf_indexOf in Hpage.
  apply elem_of_map in Hpage as ([k info] & -> & Hin).
  rewrite (Hrange (map_to_list ms)) in Hin.
  apply elem_of_map_to_list in Hin.
  destruct (Hms k info Hin) as (Hp & Hm & ->). eauto.
Qed.

(** Every indexed source in which the module query matched has a Page
    under the name of its module. *)
Lemma returned_page_exists range idx p :
  visitsAll range ->
  IndexDir range ctx dirFS = (Some idx, None) ->
  p ∈ indexed dirFS -> hasModule ctx dirFS p = true ->
  exists info, pageOf ctx dirFS (moduleName p, info) ∈ pagesOf idx.
Proof.
  intros Hrange Hrun Hp Hm.
  apply IndexDir_returned in Hrun as (_ & ms & [_ Hms] & ->).
  destruct (Hms p Hp Hm) as [info Hinfo]. exists info.
  rewrite pagesOf_indexOf. apply elem_of_map. exists (moduleName p, info).
  split; [reflexivity|].
  rewrite (Hrange (map_to_list ms)). now apply elem_of_map_to_list.
Qed.

End Returned.

(** * The claims *)

Section Claims.

Context {TS : TreeSitter} {SC : schema.Constants}.
Variables (ctx : context.Context) (dirFS : fs.FS).

(** The Sections of a Page of the run. *)
Local Ltac page_sections Hc :=
  cbn [pageOf schema.Sections fst snd] in Hc;
  apply list_elem_of_singleton in Hc; subst.

(** C1. Visibility filter.  In every Index that [IndexDir] returns, no
    Section carries a name that starts with an underscore and does not
    end with one: the function definitions with such a name are left
    out.  A function found in an indexed source whose name is not of
    that kind has its Section, among the function Sections of the Page
    of its module; a name that starts and ends with an underscore (a
    special method name) is not of that kind, and is retained. *)
Theorem private_excluded_special_retained range idx :
  visitsAll range ->
  IndexDir range ctx dirFS = (Some idx, None) ->
  (forall page c, page ∈ pagesOf idx -> c ∈ schema.Sections page ->
     ~ isPrivateName (schema.ID c)
     /\ forall s, s ∈ schema.Children c -> ~ isPrivateName (schema.ID s))
  /\ (forall name, isSpecialName name -> ~ isPrivateName name)
  /\ (forall p name,
        p ∈ indexed dirFS -> hasModule ctx dirFS p = true ->
        name ∈ sourceFuncNames ctx dirFS p ->
        ~ isPrivateName name ->
        exists page c s,
          page ∈ pagesOf idx
          /\ schema.PageSearchKey page = [moduleName p]
          /\ c ∈ schema.Sections page
          /\ s ∈ schema.Children c
          /\ schema.ID s = name).
Proof.
  intros Hrange Hrun. split; [|split].
  - intros page c Hpage Hc.
    destruct (returned_page ctx dirFS range idx page Hrange Hrun Hpage)
      as (info & -> & _ & _).
    page_sections Hc. split.
    + intros [Hp _]. discriminate Hp.
    + intros s Hs. cbn [functionsSection schema.Children] in Hs.
      apply moduleSections_shape in Hs as (_ & _ & _ & _ & Hu & _).
      rewrite <- unexported_private. congruence.
  - intros name Hspecial Hprivate.
    apply unexported_private in Hprivate.
    apply special_not_unexported in Hspecial. congruence.
  - intros p name Hp Hm Hname Hpub.
    assert (Hu : unexported name = false).
    { apply not_true_iff_false. now rewrite unexported_private. }
    destruct (moduleSections_retained ctx dirFS p name Hp Hm Hname Hu)
      as (s & Hs & Hid).
    destruct (returned_page_exists ctx dirFS range idx p Hrange Hrun Hp Hm)
      as [info Hpage].
    eexists _, _, s. split; [exact Hpage|].
    split; [reflexivity|]. split; [apply list_elem_of_here|].
    split; [exact Hs|exact Hid].
Qed.

(** C2, amended.  In every Index that [IndexDir] returns, the SearchKey
    of a Page is the single token of the name of its module, the
    SearchKey of its category Section is empty, and the SearchKey of a
    function Section is by itself the canonical path of the function,
    module token included.  The concatenation along the path from the
    Page to the function Section is therefore the module token followed
    by the canonical path: the module token occurs twice. *)
Theorem function_key_is_canonical_path range idx page c s :
  visitsAll range ->
  IndexDir range ctx dirFS = (Some idx, None) ->
  page ∈ pagesOf idx -> c ∈ schema.Sections page ->
  s ∈ schema.Children c ->
  schema.PageSearchKey page = [moduleName (schema.Path page)]
  /\ schema.SearchKey c = []
  /\ schema.SearchKey s
     = canonicalPath (moduleName (schema.Path page)) (schema.ID s)
  /\ schema.PageSearchKey page ++ schema.SearchKey c ++ schema.SearchKey s
     = moduleName (schema.Path page)
       :: canonicalPath (moduleName (schema.Path page)) (schema.ID s).
Proof.
  intros Hrange Hrun Hpage Hc Hs.
  destruct (returned_page ctx dirFS range idx page Hrange Hrun Hpage)
    as (info & -> & _ & _).
  page_sections Hc. cbn [functionsSection schema.Children] in Hs.
  apply moduleSections_shape in Hs as (_ & Hkey & _).
  cbn [pageOf schema.PageSearchKey schema.Path functionsSection
       schema.SearchKey fst snd app].
  rewrite Hkey. unfold canonicalPath. auto.
Qed.


(** C4, amended.  In every Index that [IndexDir] returns, the top-level
    Sections of a Page have distinct identifiers (there is one).  The
    identifiers of the function Sections below it are the names, in
    order and with their repetitions, of the functions found for the
    module that are not unexported: they are distinct exactly when
    these names are. *)
Theorem sibling_ids_are_function_names range idx page :
  visitsAll range ->
  IndexDir range ctx dirFS = (Some idx, None) ->
  page ∈ pagesOf idx ->
  NoDup (map schema.ID (schema.Sections page))
  /\ forall c, c ∈ schema.Sections page ->
       map schema.ID (schema.Children c)
       = filter (fun n => unexported n = false)
                (moduleFuncNames ctx dirFS (moduleName (schema.Path page)))
       /\ (uniqueBelow c <->
           NoDup (filter (fun n => unexported n = false)
                    (moduleFuncNames ctx dirFS
                       (moduleName (schema.Path page))))).
Proof.
  intros Hrange Hrun Hpage.
  destruct (returned_page ctx dirFS range idx page Hrange Hrun Hpage)
    as (info & -> & _ & _).
  split.
  - cbn. apply NoDup_singleton.
  - intros c Hc. page_sections Hc.
    cbn [pageOf schema.Path functionsSection schema.Children fst snd].
    rewrite <- moduleSections_IDs. split; [reflexivity|].
    cbn [uniqueBelow functionsSection schema.Children].
    split; [now intros [H _]|]. intros Hnodup. split; [exact Hnodup|].
    assert (Hleaf : forall s,
               s ∈ moduleSections ctx dirFS (moduleName (path info)) ->
               schema.Children s = [])
      by (intros s Hs; now apply moduleSections_shape in Hs).
    induction (moduleSections ctx dirFS (moduleName (path info)))
      as [|s ss IH]; [exact I|].
    cbn [foldr]. split.
    + destruct s as [? ? ? ? ? ? ch].
      specialize (Hleaf _ (list_elem_of_here _ _)). cbn in Hleaf. subst ch.
      cbn. split; [apply NoDup_nil_2|exact I].
    + apply IH.
      * cbn [map] in Hnodup. now apply NoDup_cons in Hnodup as [_ ?].
      * intros s' Hs'. apply Hleaf. now apply list_elem_of_further.
Qed.

(** C5. Discovery and counts.  When [IndexDir] returns an Index, the
    walk has collected exactly the files below the directory whose
    extension is [.py] or [.py3]; the files it skips are exactly the
    collected files whose path contains [test_], [_test] or [tests];
    every other collected file has been read, and the file count and the
    byte count of the Index are the number of these files and the sum of
    their lengths (both within the range of [int]). *)
Theorem discovery_and_counts range idx :
  IndexDir range ctx dirFS = (Some idx, None) ->
  (Z.of_nat (length (indexed dirFS)) <= maxInt)%Z ->
  (totalSize dirFS (indexed dirFS) <= maxInt)%Z ->
  fs.WalkDir dirFS walkFn [] = (discovered dirFS, None)
  /\ (forall p, p ∈ discovered dirFS <->
        p ∈ fs.allFiles dirFS
        /\ (filepath.Ext p = ".py" \/ filepath.Ext p = ".py3"))
  /\ (forall p, p ∈ indexed dirFS <->
        p ∈ discovered dirFS
        /\ ~ (strings.Contains p "test_" = true
              \/ strings.Contains p "_test" = true
              \/ strings.Contains p "tests" = true))
  /\ (forall p, p ∈ indexed dirFS ->
        exists content, fs.ReadFile dirFS p = inl content
                        /\ fileSize dirFS p = len content)
  /\ schema.NumFiles idx = Z.of_nat (length (indexed dirFS))
  /\ schema.NumBytes idx = totalSize dirFS (indexed dirFS).
Proof.
  intros Hrun Hfiles Hbytes.
  apply IndexDir_returned in Hrun as (Hnone & ms & _ & ->).
  unfold firstFailure in Hnone.
  destruct (fs.walkError dirFS) eqn:Hw; [discriminate|].
  split; [now apply WalkDir_sources|].
  split; [|split; [|split; [|split]]].
  - intros p. unfold discovered. rewrite list_elem_of_filter.
    unfold isSource. rewrite orb_true_iff, !String.eqb_eq. tauto.
  - intros p. unfold indexed. rewrite list_elem_of_filter.
    unfold isTest. rewrite <- not_true_iff_false, !orb_true_iff. tauto.
  - intros p Hp. unfold indexed in Hp.
    apply list_elem_of_filter in Hp as [Ht Hd].
    assert (Hs : sourceError ctx dirFS p = None).
    { destruct (sourceError ctx dirFS p) as [e|] eqn:He; [|reflexivity].
      exfalso.
      assert (Hin : e ∈ omap (sourceError ctx dirFS) (discovered dirFS))
        by (apply list_elem_of_omap; eauto).
      destruct (omap (sourceError ctx dirFS) (discovered dirFS));
        [now apply elem_of_nil in Hin|discriminate]. }
    unfold sourceError in Hs. rewrite Ht in Hs.
    unfold parseSource, fileSize in *.
    destruct (fs.ReadFile dirFS p) as [content|]; [eauto|discriminate].
  - cbn. apply wrapInt_small. unfold maxInt, intBits in *. lia.
  - cbn. apply wrapInt_small.
    pose proof (totalSize_nonneg dirFS (indexed dirFS)).
    unfold maxInt, intBits in *. lia.
Qed.



(** C8. SearchKeys.  In every Index that [IndexDir] returns, each Page
    is the Page of a source that is not skipped, its SearchKey is the
    single token [moduleName path], and every function Section below it
    has the SearchKey [moduleName path; "."; name], where [name] is the
    name of a function found for that module and [moduleName path] is
    the path without a trailing [.py] and with [.] for every [/].
    Every source that is not skipped and in which the module query
    matches has such a Page. *)
Theorem search_keys_of_pages_and_functions range idx :
  visitsAll range ->
  IndexDir range ctx dirFS = (Some idx, None) ->
  (forall page, page ∈ pagesOf idx ->
     schema.Path page ∈ indexed dirFS
     /\ schema.PageSearchKey page = [moduleName (schema.Path page)]
     /\ forall c s, c ∈ schema.Sections page -> s ∈ schema.Children c ->
          schema.SearchKey s
          = [moduleName (schema.Path page); "."; schema.ID s]
          /\ schema.ID s
             ∈ moduleFuncNames ctx dirFS (moduleName (schema.Path page)))
  /\ (forall p, p ∈ indexed dirFS -> hasModule ctx dirFS p = true ->
        exists page, page ∈ pagesOf idx
                     /\ schema.PageSearchKey page = [moduleName p])
  /\ (forall p, moduleName p
                = strings.ReplaceAll (strings.TrimSuffix p ".py") "/" ".").
Proof.
  intros Hrange Hrun. split; [|split].
  - intros page Hpage.
    destruct (returned_page ctx dirFS range idx page Hrange Hrun Hpage)
      as (info & -> & Hp & _).
    split; [exact Hp|]. split; [reflexivity|].
    intros c s Hc Hs. page_sections Hc.
    cbn [functionsSection schema.Children] in Hs.
    apply moduleSections_shape in Hs as (_ & Hkey & _ & _ & _ & Hname).
    cbn [pageOf schema.Path fst snd]. auto.
  - intros p Hp Hm.
    destruct (returned_page_exists ctx dirFS range idx p Hrange Hrun Hp Hm)
      as [info Hpage].
    eexists. split; [exact Hpage|reflexivity].
  - reflexivity.
Qed.

(** C9. Section trees.  In every Index that [IndexDir] returns, each
    Page has exactly one top-level Section: a category node with the
    identifier [func] and the label [Functions], whose children are the
    function Sections of the module.  Every function Section is a leaf
    and is not a category; no path from a top-level Section to a leaf
    has more than two Sections. *)
Theorem section_trees_have_two_levels range idx page :
  visitsAll range ->
  IndexDir range ctx dirFS = (Some idx, None) ->
  page ∈ pagesOf idx ->
  exists c,
    schema.Sections page = [c]
    /\ schema.Category c = true
    /\ schema.ID c = "func"
    /\ schema.Label c = "Functions"
    /\ schema.Children c
       = moduleSections ctx dirFS (moduleName (schema.Path page))
    /\ (forall s, s ∈ schema.Children c ->
          schema.Children s = [] /\ schema.Category s = false
          /\ schema.depth s = 1%nat)
    /\ (schema.depth c <= 2)%nat.
Proof.
  intros Hrange Hrun Hpage.
  destruct (returned_page ctx dirFS range idx page Hrange Hrun Hpage)
    as (info & -> & _ & _).
  eexists. split; [reflexivity|].
  cbn [pageOf schema.Path functionsSection schema.Children schema.Category
       schema.ID schema.Label fst snd].
  do 4 (split; [reflexivity|]). split.
  - intros s Hs. apply moduleSections_shape in Hs as (_ & _ & Hcat & Hch & _).
    repeat split; try assumption.
    destruct s. cbn in *. now subst.
  - assert (Hleaf : forall s,
               s ∈ moduleSections ctx dirFS (moduleName (path info)) ->
               schema.depth s = 1%nat).
    { intros s Hs. apply moduleSections_shape in Hs as (_ & _ & _ & Hch & _).
      destruct s. cbn in *. now subst. }
    cbn [schema.depth functionsSection schema.Children].
    apply le_n_S.
    induction (moduleSections ctx dirFS (moduleName (path info)))
      as [|s ss IH]; cbn [foldr]; [lia|].
    rewrite (Hleaf s (list_elem_of_here _ _)).
    assert (foldr (fun c d => Nat.max (schema.depth c) d) 0%nat ss <= 1)%nat
      by (apply IH; intros s' Hs'; apply Hleaf; now apply list_elem_of_further).
    lia.
Qed.

(** C10. Empty corpus.  For a directory that can be walked and in which
    no file with extension [.py] or [.py3] is left after the test files
    are skipped, [IndexDir] succeeds: it returns an Index with file
    count 0, byte count 0 and exactly one Library, whose sequence of
    Pages is empty. *)
Theorem empty_corpus_is_indexed range :
  visitsAll range ->
  fs.walkError dirFS = None ->
  indexed dirFS = [] ->
  exists idx lib,
    IndexDir range ctx dirFS = (Some idx, None)
    /\ schema.NumFiles idx = 0%Z
    /\ schema.NumBytes idx = 0%Z
    /\ schema.Libraries idx = [lib]
    /\ schema.Pages lib = [].
Proof.
  intros Hrange Hw Hnone.
  assert (Hskip : forall p, p ∈ discovered dirFS -> isTest p = true).
  { intros p Hp. destruct (isTest p) eqn:Ht; [reflexivity|].
    assert (Hin : p ∈ indexed dirFS)
      by (unfold indexed; now apply list_elem_of_filter).
    rewrite Hnone in Hin. now apply elem_of_nil in Hin. }
  destruct (IndexDir_cases ctx dirFS)
    as [(e & He & _)|(_ & ms & [Hms _] & Hok)].
  - exfalso. unfold firstFailure in He. rewrite Hw in He.
    assert (Hin : e ∈ omap (sourceError ctx dirFS) (discovered dirFS)).
    { destruct (omap (sourceError ctx dirFS) (discovered dirFS));
        [discriminate|]. injection He as ->. apply list_elem_of_here. }
    apply list_elem_of_omap in Hin as (p & Hp & Hs).
    unfold sourceError in Hs. now rewrite (Hskip p Hp) in Hs.
  - assert (Hempty : ms = ∅).
    { apply map_empty. intros k. destruct (ms !! k) as [info|] eqn:Hk;
        [|reflexivity].
      destruct (Hms k info Hk) as (Hp & _). rewrite Hnone in Hp.
      now apply elem_of_nil in Hp. }
    subst ms. specialize (Hok range). rewrite map_to_list_empty in Hok.
    assert (Hr : range [] = []) by (apply Permutation_nil_r, Hrange).
    rewrite Hr in Hok.
    eexists _, _. split; [apply Hok|].
    unfold indexOf. rewrite Hnone. cbn. auto.
Qed.

End Claims.

(** * Further properties *)

(** ** Strings *)

Lemma length_append (a b : string) :
  String.length (a +:+ b) = (String.length a + String.length b)%nat.
Proof. induction a as [|c a IH]; simpl; [reflexivity|now rewrite IH]. Qed.

Lemma append_cons (c : ascii) (a b : string) :
  String c a +:+ b = String c (a +:+ b).
Proof. reflexivity. Qed.

Lemma append_nil_r (a : string) : a +:+ "" = a.
Proof.
  induction a as [|c a IH]; [reflexivity|]. now rewrite append_cons, IH.
Qed.


Lemma substring_all (s : string) :
  String.substring 0 (String.length s) s = s.
Proof. induction s as [|c s IH]; simpl; [reflexivity|now rewrite IH]. Qed.

Lemma substring_append_l (a b : string) :
  String.substring 0 (String.length a) (a +:+ b) = a.
Proof.
  induction a as [|c a IH]; [now destruct b|].
  rewrite append_cons. simpl. now rewrite IH.
Qed.

Lemma substring_append_r (a b : string) (n m : nat) :
  String.substring (String.length a + n) m (a +:+ b)
  = String.substring n m b.
Proof.
  induction a as [|c a IH]; [reflexivity|]. rewrite append_cons. exact IH.
Qed.

Lemma substring_split (s : string) (n : nat) :
  (n <= String.length s)%nat ->
  String.substring 0 n s +:+ String.substring n (String.length s - n) s = s.
Proof.
  revert n; induction s as [|c s IH]; intros [|n] Hn; simpl in Hn.
  - reflexivity.
  - lia.
  - rewrite Nat.sub_0_r. change (String.substring 0 0 (String c s)) with "".
    apply substring_all.
  - change (String.substring 0 (S n) (String c s))
      with (String c (String.substring 0 n s)).
    change (String.substring (S n) (String.length (String c s) - S n)
              (String c s))
      with (String.substring n (String.length s - n) s).
    rewrite append_cons, IH by lia. reflexivity.
Qed.

Lemma substring_prefix_length (p s : string) :
  String.substring 0 (String.length p) s = p ->
  (String.length p <= String.length s)%nat.
Proof.
  revert s; induction p as [|c p IH]; intros s Hs; simpl; [lia|].
  destruct s as [|d s]; simpl in Hs; [discriminate|].
  injection Hs as _ Hs. apply IH in Hs. simpl. lia.
Qed.

Lemma prefix_append (a b : string) : String.prefix a (a +:+ b) = true.
Proof. apply prefix_correct, substring_append_l. Qed.

Lemma prefix_split (p s : string) :
  String.prefix p s = true ->
  s = p +:+ String.substring (String.length p)
                             (String.length s - String.length p) s.
Proof.
  intros Hp. apply prefix_correct in Hp.
  assert (Hlen : (String.length p <= String.length s)%nat).
  { now apply substring_prefix_length. }
  rewrite <- (substring_split s (String.length p) Hlen) at 1.
  now rewrite Hp.
Qed.

Lemma HasSuffix_append (a b : string) : strings.HasSuffix (a +:+ b) b = true.
Proof.
  unfold strings.HasSuffix. rewrite length_append.
  replace (String.length a + String.length b - String.length b)%nat
    with (String.length a + 0)%nat by lia.
  rewrite substring_append_r, substring_all, String.eqb_refl.
  rewrite andb_true_r. apply Nat.leb_le. lia.
Qed.

Lemma HasSuffix_split (s suf : string) :
  strings.HasSuffix s suf = true ->
  s = String.substring 0 (String.length s - String.length suf) s +:+ suf.
Proof.
  unfold strings.HasSuffix. intros H.
  apply andb_true_iff in H as [Hlen Heq].
  apply Nat.leb_le in Hlen. apply String.eqb_eq in Heq.
  rewrite <- (substring_split s (String.length s - String.length suf)) at 1
    by lia.
  f_equal.
  replace (String.length s - (String.length s - String.length suf))%nat
    with (String.length suf) by lia.
  exact Heq.
Qed.

Lemma TrimSuffix_append (a b : string) : strings.TrimSuffix (a +:+ b) b = a.
Proof.
  unfold strings.TrimSuffix. rewrite HasSuffix_append, length_append.
  replace (String.length a + String.length b - String.length b)%nat
    with (String.length a) by lia.
  apply substring_append_l.
Qed.

Lemma TrimPrefix_append (a b : string) : strings.TrimPrefix (a +:+ b) a = b.
Proof.
  unfold strings.TrimPrefix, strings.HasPrefix.
  rewrite prefix_append, length_append.
  replace (String.length a + String.length b - String.length a)%nat
    with (String.length b) by lia.
  rewrite <- (Nat.add_0_r (String.length a)) at 1.
  rewrite substring_append_r. apply substring_all.
Qed.

(** X2. [sanitizeDocs] gives back the text between a leading and a
    trailing triple quote, whatever the text. *)
Theorem sanitizeDocs_quoted body :
  sanitizeDocs (tripleQuote +:+ body +:+ tripleQuote) = body.
Proof.
  unfold sanitizeDocs. now rewrite TrimPrefix_append, TrimSuffix_append.
Qed.

(** X3. [sanitizeDocs] removes at most one triple quote at each end
    and nothing else: the input is the output between an empty or
    triple-quote prefix and an empty or triple-quote suffix. *)
Theorem sanitizeDocs_removes_ends (s : string) :
  exists pre post,
    s = pre +:+ sanitizeDocs s +:+ post
    /\ (pre = "" \/ pre = tripleQuote)
    /\ (post = "" \/ post = tripleQuote).
Proof.
  unfold sanitizeDocs.
  assert (Hpre : exists pre, s = pre +:+ strings.TrimPrefix s tripleQuote
                             /\ (pre = "" \/ pre = tripleQuote)).
  { unfold strings.TrimPrefix, strings.HasPrefix.
    destruct (String.prefix tripleQuote s) eqn:Hp.
    - exists tripleQuote. split; [now apply prefix_split|now right].
    - exists "". split; [reflexivity|now left]. }
  destruct Hpre as (pre & Hs & Hpre).
  set (t := strings.TrimPrefix s tripleQuote) in *.
  assert (Hpost : exists post, t = strings.TrimSuffix t tripleQuote +:+ post
                               /\ (post = "" \/ post = tripleQuote)).
  { unfold strings.TrimSuffix.
    destruct (strings.HasSuffix t tripleQuote) eqn:Hp.
    - exists tripleQuote. split; [now apply HasSuffix_split|now right].
    - exists "". split; [now rewrite append_nil_r|now left]. }
  destruct Hpost as (post & Ht & Hpost).
  exists pre, post. split; [|split; assumption].
  now rewrite <- Ht.
Qed.

(** ** Extensions *)

Lemma list_ascii_of_string_append (a b : string) :
  list_ascii_of_string (a +:+ b)
  = list_ascii_of_string a ++ list_ascii_of_string b.
Proof.
  induction a as [|c a IH]; [reflexivity|].
  rewrite append_cons. simpl. now rewrite IH.
Qed.

Lemma string_of_list_ascii_app (l k : list ascii) :
  string_of_list_ascii (l ++ k)
  = string_of_list_ascii l +:+ string_of_list_ascii k.
Proof.
  induction l as [|c l IH]; [reflexivity|].
  simpl. now rewrite IH, append_cons.
Qed.

(** The loop of [filepath.Ext] returns nothing, or the bytes it has
    passed after a dot that no separator follows. *)
Lemma extLoop_split (r acc : list ascii) :
  filepath.extLoop r acc = ""
  \/ exists mid rest,
       r = mid ++ "."%char :: rest
       /\ Forall (fun c => c <> "/"%char /\ c <> "."%char) mid
       /\ filepath.extLoop r acc
          = string_of_list_ascii ("."%char :: rev mid ++ acc).
Proof.
  revert acc; induction r as [|c r IH]; intros acc; [now left|].
  cbn [filepath.extLoop].
  destruct (Ascii.eqb_spec c "/"%char) as [->|Hsep]; [now left|].
  destruct (Ascii.eqb_spec c "."%char) as [->|Hdot].
  - right. exists [], r. repeat split. constructor.
  - destruct (IH (c :: acc)) as [Hnone|(mid & rest & -> & Hmid & Hext)];
      [now left|].
    right. exists (c :: mid), rest. split; [reflexivity|].
    split; [now constructor|].
    rewrite Hext. cbn [rev]. now rewrite <- app_assoc.
Qed.

Lemma extLoop_found (mid rest acc : list ascii) :
  Forall (fun c => c <> "/"%char /\ c <> "."%char) mid ->
  filepath.extLoop (mid ++ "."%char :: rest) acc
  = string_of_list_ascii ("."%char :: rev mid ++ acc).
Proof.
  revert acc; induction mid as [|c mid IH]; intros acc Hmid.
  - reflexivity.
  - apply Forall_cons in Hmid as [[Hsep Hdot] Hmid].
    cbn [app filepath.extLoop].
    destruct (Ascii.eqb_spec c "/"%char); [contradiction|].
    destruct (Ascii.eqb_spec c "."%char); [contradiction|].
    rewrite IH by assumption. cbn [rev]. now rewrite <- app_assoc.
Qed.

(** A non-empty extension is a suffix of the path. *)
Lemma Ext_suffix (p : string) :
  filepath.Ext p <> "" -> exists stem, p = stem +:+ filepath.Ext p.
Proof.
  unfold filepath.Ext. intros Hext.
  destruct (extLoop_split (rev (list_ascii_of_string p)) [])
    as [Hnone|(mid & rest & Hr & _ & Hfound)]; [contradiction|].
  exists (string_of_list_ascii (rev rest)).
  rewrite Hfound, app_nil_r, <- string_of_list_ascii_app.
  rewrite <- (string_of_list_ascii_of_string p) at 1. f_equal.
  rewrite <- (rev_involutive (list_ascii_of_string p)), Hr.
  rewrite rev_app_distr. cbn [rev]. now rewrite <- app_assoc.
Qed.

(** The extension of a path that ends with a dot and bytes that are
    neither dots nor separators. *)
Lemma Ext_append (stem : string) (e : list ascii) :
  Forall (fun c => c <> "/"%char /\ c <> "."%char) e ->
  filepath.Ext (stem +:+ String "."%char (string_of_list_ascii e))
  = String "."%char (string_of_list_ascii e).
Proof.
  intros He. unfold filepath.Ext.
  rewrite list_ascii_of_string_append. cbn [list_ascii_of_string].
  rewrite list_ascii_of_string_of_list_ascii, rev_app_distr.
  cbn [rev]. rewrite <- app_assoc. cbn [app].
  rewrite extLoop_found by (now apply Forall_rev).
  now rewrite rev_involutive, app_nil_r.
Qed.

(** X4. The test of line 102 on [filepath.Ext] is a test on the end of
    the path: a path is collected as a source exactly when it ends with
    [.py] or with [.py3]. *)
Theorem isSource_suffix (p : string) :
  isSource p = true
  <-> strings.HasSuffix p ".py" = true \/ strings.HasSuffix p ".py3" = true.
Proof.
  unfold isSource. rewrite orb_true_iff, !String.eqb_eq. split.
  - intros Hext.
    destruct (Ext_suffix p) as [stem Hp];
      [destruct Hext as [-> | ->]; discriminate|].
    rewrite Hp.
    destruct Hext as [-> | ->]; [left|right]; apply HasSuffix_append.
  - intros [H|H]; apply HasSuffix_split in H; rewrite H; [left|right].
    + apply (Ext_append _ ["p"%char; "y"%char]).
      repeat constructor; discriminate.
    + apply (Ext_append _ ["p"%char; "y"%char; "3"%char]).
      repeat constructor; discriminate.
Qed.

(** ** Test paths *)

Lemma prefix_append_r (sub s post : string) :
  String.prefix sub s = true -> String.prefix sub (s +:+ post) = true.
Proof.
  revert s; induction sub as [|c sub IH]; intros s H;
    [now destruct (s +:+ post)|].
  destruct s as [|d s]; [discriminate|]. rewrite append_cons.
  cbn [String.prefix] in *.
  destruct (Ascii.ascii_dec c d); [now apply IH|discriminate].
Qed.

Lemma Contains_append_r (s sub post : string) :
  strings.Contains s sub = true -> strings.Contains (s +:+ post) sub = true.
Proof.
  induction s as [|c s IH]; intros H.
  - cbn [strings.Contains] in H. rewrite orb_false_r in H.
    destruct sub; [|discriminate]. now destruct post.
  - rewrite append_cons. cbn [strings.Contains] in *.
    apply orb_true_iff in H as [H|H]; apply orb_true_iff.
    + left. rewrite <- append_cons. now apply prefix_append_r.
    + right. now apply IH.
Qed.

Lemma Contains_append_l (pre s sub : string) :
  strings.Contains s sub = true -> strings.Contains (pre +:+ s) sub = true.
Proof.
  intros H. induction pre as [|c pre IH]; [exact H|].
  rewrite append_cons. cbn [strings.Contains]. rewrite IH. apply orb_true_r.
Qed.

Lemma Contains_inside (pre s post sub : string) :
  strings.Contains s sub = true ->
  strings.Contains (pre +:+ s +:+ post) sub = true.
Proof. intros H. now apply Contains_append_l, Contains_append_r. Qed.

(** [strings.Contains]: the substring occurs at some offset. *)
Lemma Contains_occurs (s sub : string) :
  strings.Contains s sub = true <-> exists pre post, s = pre +:+ sub +:+ post.
Proof.
  split.
  - induction s as [|c s IH]; cbn [strings.Contains]; intros H.
    + rewrite orb_false_r in H. apply prefix_split in H.
      exists "". eexists. exact H.
    + apply orb_true_iff in H as [H|H].
      * apply prefix_split in H. exists "". eexists. exact H.
      * destruct (IH H) as (pre & post & ->).
        exists (String c pre), post. reflexivity.
  - intros (pre & post & ->). apply Contains_inside.
    destruct sub; cbn [strings.Contains]; [reflexivity|].
    apply orb_true_iff. left.
    rewrite <- (append_nil_r (String a sub)) at 2. apply prefix_append.
Qed.

(** A path that holds a test path is a test path: the files below a
    directory that looks like a test are skipped with it. *)
Lemma isTest_inside (pre p post : string) :
  isTest p = true -> isTest (pre +:+ p +:+ post) = true.
Proof.
  unfold isTest. rewrite !orb_true_iff.
  intros [[H|H]|H]; [left; left|left; right|right]; now apply Contains_inside.
Qed.

(** ** Module names *)

Lemma prefix_slash (c : ascii) (s : string) :
  String.prefix "/" (String c s) = bool_decide (c = "/"%char).
Proof.
  cbn [String.prefix].
  destruct (Ascii.ascii_dec "/"%char c) as [<-|Hne].
  - now destruct s.
  - symmetry. apply bool_decide_eq_false. congruence.
Qed.

Lemma replaceSlash_cons (c : ascii) (s : string) :
  strings.replaceFrom 0 "/" "." (String c s)
  = String (if bool_decide (c = "/"%char) then "."%char else c)
           (strings.replaceFrom 0 "/" "." s).
Proof.
  cbn [strings.replaceFrom]. rewrite prefix_slash.
  now destruct (bool_decide (c = "/"%char)).
Qed.

Lemma replaceSlash_append (a b : string) :
  strings.replaceFrom 0 "/" "." (a +:+ b)
  = strings.replaceFrom 0 "/" "." a +:+ strings.replaceFrom 0 "/" "." b.
Proof.
  induction a as [|c a IH]; [reflexivity|].
  now rewrite append_cons, !replaceSlash_cons, append_cons, IH.
Qed.

Lemma replaceSlash_no_slash (s : string) :
  strings.Contains (strings.replaceFrom 0 "/" "." s) "/" = false.
Proof.
  induction s as [|c s IH]; [reflexivity|].
  rewrite replaceSlash_cons. cbn [strings.Contains].
  rewrite prefix_slash, IH, orb_false_r.
  apply bool_decide_eq_false. case_bool_decide; congruence.
Qed.

(** X6. No separator is left in the name of a module. *)
Theorem moduleName_no_separator (p : string) :
  strings.Contains (moduleName p) "/" = false.
Proof. apply replaceSlash_no_slash. Qed.

(** X7. The name of the module of a [.py] file is its path without the
    extension and with dots for the separators; that of a [.py3] file
    keeps the extension [.py3]. *)
Theorem moduleName_extension (stem : string) :
  moduleName (stem +:+ ".py") = strings.ReplaceAll stem "/" "."
  /\ moduleName (stem +:+ ".py3") = strings.ReplaceAll stem "/" "." +:+ ".py3".
Proof.
  unfold moduleName. split.
  - now rewrite TrimSuffix_append.
  - assert (Hno : strings.HasSuffix (stem +:+ ".py3") ".py" = false).
    { unfold strings.HasSuffix. rewrite length_append.
      replace (String.length stem + String.length ".py3"
               - String.length ".py")%nat
        with (String.length stem + 1)%nat by (simpl; lia).
      rewrite substring_append_r. apply andb_false_r. }
    unfold strings.TrimSuffix. rewrite Hno.
    unfold strings.ReplaceAll. now rewrite replaceSlash_append.
Qed.

(** ** Captures *)

Section Captures.

Context {TS : TreeSitter}.

Lemma getCaptures_fold q name cs (acc : gmap string (list sitter.Node)) :
  foldl (fun captures c =>
           let cname := CaptureNameForId q (sitter.Index c) in
           <[cname := (captures !!! cname) ++ [sitter.CNode c]]> captures)
        acc cs !!! name
  = acc !!! name
    ++ map sitter.CNode
         (filter (fun c => CaptureNameForId q (sitter.Index c) = name) cs).
Proof.
  revert acc; induction cs as [|c cs IH]; intros acc.
  - now rewrite app_nil_r.
  - cbn [foldl]. rewrite IH. cbv zeta.
    destruct (decide (CaptureNameForId q (sitter.Index c) = name)) as [He|Hne].
    + rewrite filter_cons_True by assumption. rewrite He.
      rewrite lookup_total_insert_eq. cbn [map]. now rewrite <- app_assoc.
    + rewrite filter_cons_False by assumption.
      now rewrite lookup_total_insert_ne.
Qed.

Lemma getCaptures_total q m name :
  getCaptures q m !!! name
  = map sitter.CNode
      (filter (fun c => CaptureNameForId q (sitter.Index c) = name)
              (sitter.Captures m)).
Proof.
  unfold getCaptures. rewrite getCaptures_fold. now rewrite lookup_total_empty.
Qed.

Lemma getCaptures_absent q m name :
  (forall c, c ∈ sitter.Captures m ->
             CaptureNameForId q (sitter.Index c) <> name) ->
  getCaptures q m !!! name = [].
Proof.
  intros H. rewrite getCaptures_total.
  induction (sitter.Captures m) as [|c cs IH]; [reflexivity|].
  rewrite filter_cons_False by (apply H, list_elem_of_here).
  apply IH. intros c' Hc'. apply H. now apply list_elem_of_further.
Qed.

(** X1. [getCaptures] groups the nodes of a match by the name of their
    capture, in the order of the match; a name without capture has no
    entry in the map. *)
Theorem getCaptures_groups q m name :
  getCaptures q m !!! name
  = map sitter.CNode
      (filter (fun c => CaptureNameForId q (sitter.Index c) = name)
              (sitter.Captures m))
  /\ (getCaptures q m !! name = None
      <-> forall c, c ∈ sitter.Captures m ->
                    CaptureNameForId q (sitter.Index c) <> name).
Proof.
  split.
  - apply getCaptures_total.
  - unfold getCaptures.
    assert (Hgen : forall cs (acc : gmap string (list sitter.Node)),
      foldl (fun captures c =>
               let cname := CaptureNameForId q (sitter.Index c) in
               <[cname := (captures !!! cname) ++ [sitter.CNode c]]> captures)
            acc cs !! name = None
      <-> acc !! name = None
          /\ forall c, c ∈ cs -> CaptureNameForId q (sitter.Index c) <> name).
    { induction cs as [|c cs IH]; intros acc.
      - cbn [foldl]. split; [intros H; split; [exact H|]|now intros [H _]].
        intros c Hc. now apply elem_of_nil in Hc.
      - cbn [foldl]. rewrite IH. cbv zeta.
        destruct (decide (CaptureNameForId q (sitter.Index c) = name))
          as [He|Hne].
        + rewrite He, lookup_insert_eq. split; [intros [H _]; discriminate|].
          intros [_ H]. exfalso.
          apply (H c); [apply list_elem_of_here|exact He].
        + rewrite lookup_insert_ne by assumption. split.
          * intros [Ha Hcs]. split; [exact Ha|]. intros c' Hc'.
            apply elem_of_cons in Hc' as [->|Hc']; [exact Hne|now apply Hcs].
          * intros [Ha Hcs]. split; [exact Ha|]. intros c' Hc'.
            apply Hcs. now apply list_elem_of_further. }
    rewrite Hgen, lookup_empty. split; [now intros [_ H]|now split].
Qed.

End Captures.

(** ** The entries of [mods] *)

Section Modules.

Context {TS : TreeSitter} {SC : schema.Constants}.
Variables (ctx : context.Context) (dirFS : fs.FS).

Lemma moduleClauses_last p content q acc ms k :
  snd (foldl (moduleClause p content q) acc ms) !! k
  = match last ms with
    | Some m =>
        if decide (moduleName p = k)
        then Some {| path := p; docs := matchDocs content q m |}
        else snd acc !! k
    | None => snd acc !! k
    end.
Proof.
  revert acc; induction ms as [|m ms IH]; intros acc; [reflexivity|].
  cbn [foldl]. rewrite IH, last_cons.
  destruct (last ms) as [m'|]; [|].
  - destruct (decide (moduleName p = k)); [reflexivity|].
    cbn [moduleClause snd]. now rewrite lookup_insert_ne.
  - cbn [moduleClause snd].
    destruct (decide (moduleName p = k)) as [<-|Hne].
    + now rewrite lookup_insert_eq.
    + now rewrite lookup_insert_ne.
Qed.

(** The entry of [mods] for a module name, at the end of the loop, is
    that of the last source of that name in which the module query
    matched. *)
Lemma indexSources_mods srcs : forall st st' k,
  indexSources ctx dirFS st srcs = inl st' ->
  mods st' !! k
  = match last (filter (fun p => hasModule ctx dirFS p = true
                                 /\ moduleName p = k)
                       (filter (fun p => isTest p = false) srcs)) with
    | Some p => Some {| path := p; docs := sourceDocs ctx dirFS p |}
    | None => mods st !! k
    end.
Proof.
  induction srcs as [|p srcs IH]; intros st st' k Hrun.
  - cbn in Hrun. now injection Hrun as <-.
  - cbn [indexSources] in Hrun.
    destruct (isTest p) eqn:Ht.
    + rewrite indexSource_test in Hrun by assumption.
      rewrite filter_cons_False by congruence. now apply IH.
    + destruct (parseSource ctx dirFS p) as [v|e] eqn:Hp.
      * rewrite (indexSource_ok _ _ _ _ v) in Hrun by assumption.
        rewrite (IH _ _ k Hrun). cbn [mods].
        rewrite filter_cons_True by assumption.
        assert (Hmod : hasModule ctx dirFS p
                       = negb (bool_decide (Exec (pModuleQ v) (pTree v) = [])))
          by (unfold hasModule; now rewrite Hp).
        rewrite moduleClauses_last. cbn [snd].
        destruct (decide (hasModule ctx dirFS p = true /\ moduleName p = k))
          as [[Hm Hk]|Hno].
        -- rewrite filter_cons_True by auto. rewrite last_cons.
           destruct (last (filter _ (filter _ srcs))); [reflexivity|].
           unfold sourceDocs. rewrite Hp.
           destruct (last (Exec (pModuleQ v) (pTree v))) as [m|] eqn:Hl.
           ++ now rewrite decide_True by assumption.
           ++ apply last_None in Hl. rewrite Hmod, Hl in Hm. discriminate.
        -- rewrite filter_cons_False by assumption.
           destruct (last (filter _ (filter _ srcs))); [reflexivity|].
           destruct (last (Exec (pModuleQ v) (pTree v))) as [m|] eqn:Hl;
             [|reflexivity].
           destruct (decide (moduleName p = k)) as [Hk|]; [|reflexivity].
           exfalso. apply Hno. split; [|exact Hk].
           rewrite Hmod. apply negb_true_iff, bool_decide_eq_false.
           intros Hnil. rewrite Hnil in Hl. discriminate.
      * rewrite (indexSource_error _ _ _ _ e) in Hrun by assumption.
        discriminate.
Qed.

(** The Index of a run, from the variables at the end of the loop. *)
Lemma IndexDir_locals range idx :
  IndexDir range ctx dirFS = (Some idx, None) ->
  exists st,
    indexSources ctx dirFS initLocals (discovered dirFS) = inl st
    /\ idx = indexOf ctx dirFS (range (map_to_list (mods st))).
Proof.
  intros Hrun.
  destruct (IndexDir_returned ctx dirFS range idx Hrun) as (Hnone & _).
  unfold firstFailure in Hnone.
  destruct (fs.walkError dirFS) eqn:Hw; [discriminate|].
  unfold IndexDir in Hrun. rewrite (WalkDir_sources _ Hw) in Hrun.
  destruct (indexSources_ok ctx dirFS _ initLocals Hnone)
    as (st & Hst & Hfiles & Hbytes & Hfuncs & _).
  exists st. split; [exact Hst|].
  rewrite Hst in Hrun. injection Hrun as <-.
  unfold indexOf. do 2 f_equal.
  - rewrite Hfiles; [reflexivity|]. cbn. unfold maxInt, intBits. lia.
  - rewrite Hbytes; [reflexivity|]. cbn. unfold maxInt, intBits. lia.
  - do 2 f_equal. rewrite modulePages_app. cbn [app].
    induction (range (map_to_list (mods st))) as [|[k info] es IH];
      [reflexivity|].
    cbn [flat_map map]. rewrite IH. cbn [modulePage app].
    unfold pageOf, functionsSection. cbn [fst snd].
    do 4 f_equal. rewrite Hfuncs. cbn [functionsByMod initLocals].
    now rewrite lookup_total_empty.
Qed.

(** X9. In every Index that [IndexDir] returns, the path of a Page is
    that of the last indexed source, in the order of the walk, that has
    the module name of the Page and in which the module query matched;
    the detail of the Page is the docstring of that source and its
    title is [Module] followed by the module name.  When two sources
    share a module name, the later one gives the Page its path and
    detail. *)
Theorem page_of_last_source range idx page :
  visitsAll range ->
  IndexDir range ctx dirFS = (Some idx, None) ->
  page ∈ pagesOf idx ->
  moduleSource ctx dirFS (moduleName (schema.Path page))
  = Some (schema.Path page)
  /\ schema.PageDetail page = sourceDocs ctx dirFS (schema.Path page)
  /\ schema.Title page = "Module " +:+ moduleName (schema.Path page).
Proof.
  intros Hrange Hrun Hpage.
  destruct (IndexDir_locals range idx Hrun) as (st & Hst & ->).
  rewrite pagesOf_indexOf in Hpage.
  apply elem_of_map in Hpage as ([k info] & -> & Hin).
  rewrite (Hrange (map_to_list (mods st))) in Hin.
  apply elem_of_map_to_list in Hin.
  rewrite (indexSources_mods _ _ _ k Hst) in Hin.
  fold (indexed dirFS) in Hin. fold (moduleSource ctx dirFS k) in Hin.
  destruct (moduleSource ctx dirFS k) as [p|] eqn:Hsrc;
    [|cbn in Hin; now rewrite lookup_empty in Hin].
  injection Hin as <-. cbn [pageOf schema.Path schema.PageDetail schema.Title
                            fst snd path docs].
  assert (Hk : moduleName p = k).
  { unfold moduleSource in Hsrc. apply last_Some_elem_of in Hsrc.
    now apply list_elem_of_filter in Hsrc as [[_ ?] _]. }
  rewrite Hk. auto.
Qed.

End Modules.

(** ** Distinct Pages *)

Lemma NoDup_map_from {A B C : Type} (f : A -> B) (g : A -> C) (l : list A) :
  (forall x y, x ∈ l -> y ∈ l -> f x = f y -> g x = g y) ->
  NoDup (map g l) -> NoDup (map f l).
Proof.
  induction l as [|x l IH]; intros Hfg Hg; cbn [map] in *;
    [apply NoDup_nil_2|].
  apply NoDup_cons in Hg as [Hx Hg]. apply NoDup_cons. split.
  - intros Hin. apply elem_of_map in Hin as (y & Hxy & Hy).
    apply Hx, elem_of_map. exists y. split; [|exact Hy].
    apply Hfg;
      [apply list_elem_of_here|now apply list_elem_of_further|exact Hxy].
  - apply IH; [|exact Hg]. intros y z Hy Hz.
    apply Hfg; now apply list_elem_of_further.
Qed.

Section Distinct.

Context {TS : TreeSitter} {SC : schema.Constants}.
Variables (ctx : context.Context) (dirFS : fs.FS).

(** X8. In every Index that [IndexDir] returns, no two Pages share a
    SearchKey or a path, and there are at most as many Pages as indexed
    files. *)
Theorem pages_are_distinct range idx :
  visitsAll range ->
  IndexDir range ctx dirFS = (Some idx, None) ->
  NoDup (map schema.PageSearchKey (pagesOf idx))
  /\ NoDup (map schema.Path (pagesOf idx))
  /\ (length (pagesOf idx) <= length (indexed dirFS))%nat.
Proof.
  intros Hrange Hrun.
  apply IndexDir_returned in Hrun as (_ & ms & [Hms _] & ->).
  rewrite pagesOf_indexOf.
  set (entries := range (map_to_list ms)).
  assert (Hin : forall e, e ∈ entries -> ms !! fst e = Some (snd e)).
  { intros [k info] He. unfold entries in He.
    rewrite (Hrange (map_to_list ms)) in He.
    now apply elem_of_map_to_list in He. }
  assert (Hkeys : NoDup (map fst entries)).
  { assert (Hperm : map fst entries ≡ₚ map fst (map_to_list ms))
      by apply Permutation_map, (Hrange (map_to_list ms)).
    rewrite Hperm. exact (NoDup_fst_map_to_list ms). }
  assert (Hpaths : NoDup (map (fun e => path (snd e)) entries)).
  { apply (NoDup_map_from _ fst); [|exact Hkeys].
    intros x y Hx Hy Hxy.
    destruct (Hms _ _ (Hin x Hx)) as (_ & _ & ->).
    destruct (Hms _ _ (Hin y Hy)) as (_ & _ & ->). now rewrite Hxy. }
  split; [|split].
  - rewrite map_map. cbn [pageOf schema.PageSearchKey].
    apply (NoDup_map_from _ fst); [|exact Hkeys].
    intros x y _ _ Hxy. now injection Hxy.
  - rewrite map_map. exact Hpaths.
  - rewrite length_map, <- (length_map (fun e => path (snd e))).
    apply submseteq_length, NoDup_submseteq; [exact Hpaths|].
    intros p Hp. apply elem_of_map in Hp as (e & -> & He).
    now destruct (Hms _ _ (Hin e He)) as (? & _).
Qed.

End Distinct.

(** ** What a run reads *)

Section Reads.

Context {TS : TreeSitter} {SC : schema.Constants}.

Lemma indexSource_congr ctx1 ctx2 fs1 fs2 st p :
  (isTest p = false ->
   fs.ReadFile fs1 p = fs.ReadFile fs2 p
   /\ forall content, fs.ReadFile fs1 p = inl content ->
                      ParseCtx ctx1 content = ParseCtx ctx2 content) ->
  indexSource ctx1 fs1 st p = indexSource ctx2 fs2 st p.
Proof.
  unfold indexSource. destruct (isTest p); [reflexivity|]. intros H.
  destruct (H eq_refl) as [Hread Hparse]. rewrite <- Hread.
  destruct (fs.ReadFile fs1 p) as [content|]; [|reflexivity].
  now rewrite (Hparse content eq_refl).
Qed.

Lemma indexSources_congr ctx1 ctx2 fs1 fs2 srcs :
  (forall p, p ∈ srcs -> isTest p = false ->
     fs.ReadFile fs1 p = fs.ReadFile fs2 p
     /\ forall content, fs.ReadFile fs1 p = inl content ->
                        ParseCtx ctx1 content = ParseCtx ctx2 content) ->
  forall st, indexSources ctx1 fs1 st srcs = indexSources ctx2 fs2 st srcs.
Proof.
  induction srcs as [|p srcs IH]; intros H st; [reflexivity|].
  cbn [indexSources].
  rewrite (indexSource_congr ctx1 ctx2 fs1 fs2 st p)
    by (apply H, list_elem_of_here).
  destruct (indexSource ctx2 fs2 st p); [|reflexivity].
  apply IH. intros q Hq. apply H. now apply list_elem_of_further.
Qed.

(** A run depends on the file system through its tree and through the
    bytes of the indexed files, and on the context through the parse of
    these bytes. *)
Lemma IndexDir_congr range ctx1 ctx2 fs1 fs2 :
  fs.Stat fs1 = fs.Stat fs2 ->
  (forall p, p ∈ indexed fs1 ->
     fs.ReadFile fs1 p = fs.ReadFile fs2 p
     /\ forall content, fs.ReadFile fs1 p = inl content ->
                        ParseCtx ctx1 content = ParseCtx ctx2 content) ->
  IndexDir range ctx1 fs1 = IndexDir range ctx2 fs2.
Proof.
  intros Hstat Hfiles. unfold IndexDir.
  assert (Hwalk : fs.WalkDir fs1 walkFn [] = fs.WalkDir fs2 walkFn [])
    by (unfold fs.WalkDir; now rewrite Hstat).
  rewrite <- Hwalk.
  pose proof (WalkDir_error fs1) as Herr.
  destruct (fs.walkError fs1) eqn:Hw.
  - destruct (fs.WalkDir fs1 walkFn []) as [srcs [e'|]]; [reflexivity|].
    discriminate.
  - rewrite (WalkDir_sources _ Hw).
    rewrite (indexSources_congr ctx1 ctx2 fs1 fs2); [reflexivity|].
    intros p Hp Ht. apply Hfiles. unfold indexed.
    now apply list_elem_of_filter.
Qed.

(** X10. [IndexDir] reads only the files it indexes: two file systems
    with the same tree whose indexed files have the same bytes (or the
    same read errors) give the same result, whatever the other files
    hold. *)
Theorem unindexed_files_are_not_read range ctx fs1 fs2 :
  fs.Stat fs1 = fs.Stat fs2 ->
  (forall p, p ∈ indexed fs1 -> fs.ReadFile fs1 p = fs.ReadFile fs2 p) ->
  IndexDir range ctx fs1 = IndexDir range ctx fs2.
Proof.
  intros Hstat Hread. apply IndexDir_congr; [exact Hstat|].
  intros p Hp. split; [now apply Hread|reflexivity].
Qed.


End Reads.

(** ** Labels *)

Section Labels.

Context {TS : TreeSitter} {SC : schema.Constants}.
Variables (ctx : context.Context) (dirFS : fs.FS).



End Labels.

(** ** Test directories *)

Lemma isTest_pathJoin (dir name : string) :
  isTest dir = true -> isTest (fs.pathJoin dir name) = true.
Proof.
  intros Ht. unfold fs.pathJoin.
  destruct (String.eqb_spec dir ".") as [->|_]; [discriminate Ht|].
  apply (isTest_inside "" dir ("/" +:+ name) Ht).
Qed.

(** X5. Every file below a directory whose path looks like a test (it
    contains [test_], [_test] or [tests]) is skipped by the test of
    line 116. *)
Theorem files_below_test_directory_are_skipped (d : fs.DirEntry) :
  forall dir p,
    isTest dir = true -> p ∈ fs.filesUnder dir d -> isTest p = true.
Proof.
  induction d as [n|n entries readErr IH] using DirEntry_forall_ind;
    intros dir p Ht Hp.
  - cbn in Hp. apply list_elem_of_singleton in Hp. now subst.
  - cbn [fs.filesUnder] in Hp.
    apply elem_of_flat_map in Hp as (d1 & Hd1 & Hp).
    rewrite Forall_forall in IH.
    apply (IH d1 Hd1 (fs.pathJoin dir (fs.Name d1)) p); [|exact Hp].
    now apply isTest_pathJoin.
Qed.

Section Edge.

Context {TS : TreeSitter} {SC : schema.Constants}.
Variables (ctx : context.Context) (dirFS : fs.FS).

(** X13. The Section of a function match that captures no docstring
    has an empty detail; the label of one that captures no result type
    is [def], the name and the parameters, without arrow. *)
Theorem missing_captures_are_empty content modName q m s :
  functionSection content modName q m = Some s ->
  ((forall c, c ∈ sitter.Captures m ->
              CaptureNameForId q (sitter.Index c) <> "func_docs") ->
   schema.Detail s = "")
  /\ ((forall c, c ∈ sitter.Captures m ->
                 CaptureNameForId q (sitter.Index c) <> "func_result") ->
      schema.Label s
      = "def " +:+ schema.ID s
        +:+ firstCaptureContentOr content
              (getCaptures q m !!! "func_params") "").
Proof.
  unfold functionSection.
  destruct (unexported (matchFuncName content q m)); [discriminate|].
  intros [= <-]. cbn [schema.Label schema.ID schema.Detail]. split.
  - intros H. now rewrite (getCaptures_absent _ _ _ H).
  - intros H. now rewrite (getCaptures_absent _ _ _ H).
Qed.

(** X14. Every Index that [IndexDir] returns carries the latest schema
    version, the Python language and exactly one Library, whose name,
    repository, identifier, version and version type are the
    placeholder [TODO]. *)
Theorem index_has_one_placeholder_library range idx :
  IndexDir range ctx dirFS = (Some idx, None) ->
  schema.SchemaVersion idx = schema.LatestVersion
  /\ schema.Language idx = schema.LanguagePython
  /\ exists pages,
       schema.Libraries idx
       = [ {| schema.Name := "TODO";
              schema.Repository := "TODO";
              schema.LibraryID := "TODO";
              schema.Version := "TODO";
              schema.VersionType := "TODO";
              schema.Pages := pages |} ].
Proof.
  intros Hrun. apply IndexDir_returned in Hrun as (_ & ms & _ & ->).
  repeat split. eexists. reflexivity.
Qed.

(** X15. Every error that [IndexDir] returns is an error wrapped with
    the name of the operation that failed, one of [WalkDir], [ReadFile],
    [ParseCtx] and [NewQuery], and prints as that name, a colon and the
    cause. *)
Theorem errors_are_labelled range e :
  IndexDir range ctx dirFS = (None, Some e) ->
  exists cause op,
    e = errors.Wrap cause op
    /\ op ∈ ["WalkDir"; "ReadFile"; "ParseCtx"; "NewQuery"]
    /\ errors.Error e = op +:+ ": " +:+ errors.Error cause.
Proof.
  intros Hrun.
  destruct (IndexDir_cases ctx dirFS)
    as [(e' & He & Hfail)|(_ & ms & _ & Hok)];
    [|rewrite Hok in Hrun; discriminate].
  rewrite Hfail in Hrun. injection Hrun as ->.
  unfold firstFailure in He.
  destruct (fs.walkError dirFS) as [err|].
  - injection He as <-. exists err, "WalkDir".
    split; [reflexivity|]. split; [apply list_elem_of_here|reflexivity].
  - assert (Hin : e ∈ omap (sourceError ctx dirFS) (discovered dirFS)).
    { destruct (omap (sourceError ctx dirFS) (discovered dirFS));
        [discriminate|]. injection He as ->. apply list_elem_of_here. }
    apply list_elem_of_omap in Hin as (p & _ & Hs).
    unfold sourceError, parseSource in Hs.
    destruct (isTest p); [discriminate|].
    destruct (fs.ReadFile dirFS p) as [content|err].
    + destruct (ParseCtx ctx content) as [tree|err].
      * destruct (NewQuery moduleQuery) as [mq|err].
        -- destruct (NewQuery functionQuery) as [fq|err]; [discriminate|].
           injection Hs as <-. exists err, "NewQuery".
           split; [reflexivity|]. split; [|reflexivity].
           do 3 apply list_elem_of_further. apply list_elem_of_here.
        -- injection Hs as <-. exists err, "NewQuery".
           split; [reflexivity|]. split; [|reflexivity].
           do 3 apply list_elem_of_further. apply list_elem_of_here.
      * injection Hs as <-. exists err, "ParseCtx".
        split; [reflexivity|]. split; [|reflexivity].
        do 2 apply list_elem_of_further. apply list_elem_of_here.
    + injection Hs as <-. exists err, "ReadFile".
      split; [reflexivity|]. split; [|reflexivity].
      apply list_elem_of_further, list_elem_of_here.
Qed.

End Edge.

(** * The claims on sample directories *)

(** The runs below use the reference instance of the binding. *)
#[local] Existing Instance lineScanner.binding.
#[local] Existing Instance sampleConstants.

Lemma inOrder_visitsAll : visitsAll inOrder.
Proof. intros entries. reflexivity. Qed.

Lemma backwards_visitsAll : visitsAll backwards.
Proof. intros entries. symmetry. apply Permutation_rev. Qed.

Example pkgDir_run :
  IndexDir inOrder context.Background pkgDir = (Some pkgIndex, None).
Proof. vm_compute. reflexivity. Qed.

Example twiceDir_run :
  IndexDir inOrder context.Background twiceDir = (Some twiceIndex, None).
Proof. vm_compute. reflexivity. Qed.



Example emptyDir_run_cancelled :
  IndexDir inOrder context.cancelled emptyDir = (Some emptyIndex, None).
Proof. vm_compute. reflexivity. Qed.

Example twiceDir_run_cancelled :
  IndexDir inOrder context.cancelled twiceDir
  = (None, Some (errors.Wrap context.Canceled "ParseCtx")).
Proof. vm_compute. reflexivity. Qed.

(** Membership in a list that evaluates to a literal. *)
Local Ltac in_list := apply list_elem_of_In; vm_compute; tauto.

(** C1 on [pkgDir]: [__init__] is retained, [_helper] is left out. *)
Lemma private_excluded_special_retained_witness :
  visitsAll inOrder
  /\ IndexDir inOrder context.Background pkgDir = (Some pkgIndex, None)
  /\ isPrivateName "_helper"
  /\ "_helper" ∈ sourceFuncNames context.Background pkgDir "pkg.py"
  /\ (forall page c s,
        page ∈ pagesOf pkgIndex -> c ∈ schema.Sections page ->
        s ∈ schema.Children c -> schema.ID s <> "_helper")
  /\ isSpecialName "__init__"
  /\ "__init__" ∈ sourceFuncNames context.Background pkgDir "pkg.py"
  /\ exists page c s,
       page ∈ pagesOf pkgIndex
       /\ schema.PageSearchKey page = [moduleName "pkg.py"]
       /\ c ∈ schema.Sections page
       /\ s ∈ schema.Children c
       /\ schema.ID s = "__init__".
Proof.
  assert (Hrun : IndexDir inOrder context.Background pkgDir
                 = (Some pkgIndex, None)) by (vm_compute; reflexivity).
  assert (Hprivate : isPrivateName "_helper") by (split; reflexivity).
  assert (Hspecial : isSpecialName "__init__") by (split; reflexivity).
  destruct (private_excluded_special_retained context.Background pkgDir
              inOrder pkgIndex inOrder_visitsAll Hrun)
    as (Hexcluded & Hnot & Hretained).
  split; [exact inOrder_visitsAll|]. split; [exact Hrun|].
  split; [exact Hprivate|]. split; [in_list|]. split.
  - intros page c s Hpage Hc Hs Hid.
    apply (proj2 (Hexcluded page c Hpage Hc) s Hs). now rewrite Hid.
  - split; [exact Hspecial|]. split; [in_list|].
    apply (Hretained "pkg.py" "__init__").
    + in_list.
    + vm_compute; reflexivity.
    + in_list.
    + now apply Hnot.
Defined.

(** C2, as stated, fails on [pkgDir]: the concatenation of the keys down
    to [run] is [pkg; pkg; .; run], not the canonical path
    [pkg; .; run]. *)
Lemma concatenated_keys_repeat_module :
  IndexDir inOrder context.Background pkgDir = (Some pkgIndex, None)
  /\ schema.PageSearchKey pkgPage
     ++ schema.SearchKey (functionsSection [runSection; initSection])
     ++ schema.SearchKey runSection
     = ["pkg"; "pkg"; "."; "run"]
  /\ canonicalPath (moduleName (schema.Path pkgPage)) (schema.ID runSection)
     = ["pkg"; "."; "run"]
  /\ ~ concatenatedKeysCanonical pkgIndex.
Proof.
  split; [vm_compute; reflexivity|]. split; [reflexivity|].
  split; [reflexivity|]. intros Hclaim.
  specialize (Hclaim pkgPage (functionsSection [runSection; initSection])
                runSection).
  assert (H : ["pkg"; "pkg"; "."; "run"] = ["pkg"; "."; "run"]);
    [|discriminate H].
  apply Hclaim.
  - apply list_elem_of_here.
  - apply list_elem_of_here.
  - apply list_elem_of_here.
Qed.

(** C2, amended, on [pkgDir]. *)
Lemma function_key_is_canonical_path_witness :
  visitsAll inOrder
  /\ IndexDir inOrder context.Background pkgDir = (Some pkgIndex, None)
  /\ pkgPage ∈ pagesOf pkgIndex
  /\ functionsSection [runSection; initSection] ∈ schema.Sections pkgPage
  /\ runSection
     ∈ schema.Children (functionsSection [runSection; initSection])
  /\ schema.SearchKey runSection = canonicalPath "pkg" "run"
  /\ schema.PageSearchKey pkgPage
     ++ schema.SearchKey (functionsSection [runSection; initSection])
     ++ schema.SearchKey runSection
     = "pkg" :: canonicalPath "pkg" "run".
Proof.
  assert (Hrun : IndexDir inOrder context.Background pkgDir
                 = (Some pkgIndex, None)) by (vm_compute; reflexivity).
  assert (Hpage : pkgPage ∈ pagesOf pkgIndex) by apply list_elem_of_here.
  assert (Hc : functionsSection [runSection; initSection]
               ∈ schema.Sections pkgPage) by apply list_elem_of_here.
  assert (Hs : runSection
               ∈ schema.Children (functionsSection [runSection; initSection]))
    by apply list_elem_of_here.
  destruct (function_key_is_canonical_path context.Background pkgDir
              inOrder pkgIndex pkgPage _ runSection
              inOrder_visitsAll Hrun Hpage Hc Hs)
    as (_ & _ & Hkey & Hconcat).
  repeat split; assumption || exact inOrder_visitsAll.
Defined.



(** C4, as stated, fails on [twiceDir]: a file that defines [f] twice
    yields two sibling Sections with the identifier [f]. *)
Lemma duplicate_definitions_share_id :
  IndexDir inOrder context.Background twiceDir = (Some twiceIndex, None)
  /\ ~ uniqueSiblingIDs twiceIndex.
Proof.
  split; [vm_compute; reflexivity|]. intros Hclaim.
  destruct (Hclaim twicePage (list_elem_of_here _ _)) as [_ Hbelow].
  destruct (Hbelow _ (list_elem_of_here _ _)) as [Hnodup _].
  cbn in Hnodup. apply NoDup_cons in Hnodup as [Hnotin _].
  apply Hnotin, list_elem_of_here.
Qed.

(** C4, amended, on [twiceDir]. *)
Lemma sibling_ids_are_function_names_witness :
  visitsAll inOrder
  /\ IndexDir inOrder context.Background twiceDir = (Some twiceIndex, None)
  /\ twicePage ∈ pagesOf twiceIndex
  /\ NoDup (map schema.ID (schema.Sections twicePage))
  /\ forall c, c ∈ schema.Sections twicePage ->
       map schema.ID (schema.Children c) = ["f"; "f"].
Proof.
  assert (Hrun : IndexDir inOrder context.Background twiceDir
                 = (Some twiceIndex, None)) by (vm_compute; reflexivity).
  assert (Hpage : twicePage ∈ pagesOf twiceIndex) by apply list_elem_of_here.
  destruct (sibling_ids_are_function_names context.Background twiceDir
              inOrder twiceIndex twicePage inOrder_visitsAll Hrun Hpage)
    as [Htop Hchildren].
  split; [exact inOrder_visitsAll|]. split; [exact Hrun|].
  split; [exact Hpage|]. split; [exact Htop|].
  intros c Hc. destruct (Hchildren c Hc) as [Hids _].
  rewrite Hids. vm_compute. reflexivity.
Defined.

(** C5 on [mixedDir]: of four files, three are sources, one of which is
    skipped as a test; two files and 24 bytes are counted. *)
Lemma discovery_and_counts_witness :
  (exists idx,
      IndexDir inOrder context.Background mixedDir = (Some idx, None)
      /\ schema.NumFiles idx = 2%Z /\ schema.NumBytes idx = 24%Z)
  /\ (Z.of_nat (length (indexed mixedDir)) <= maxInt)%Z
  /\ (totalSize mixedDir (indexed mixedDir) <= maxInt)%Z
  /\ fs.allFiles mixedDir
     = ["README.md"; "pkg/run.py"; "pkg/run_test.py"; "setup.py3"]
  /\ fs.WalkDir mixedDir walkFn []
     = (["pkg/run.py"; "pkg/run_test.py"; "setup.py3"], None)
  /\ indexed mixedDir = ["pkg/run.py"; "setup.py3"].
Proof.
  destruct (IndexDir inOrder context.Background mixedDir)
    as [[idx|] [e|]] eqn:Hrun; try (vm_compute in Hrun; discriminate Hrun).
  assert (Hfiles : (Z.of_nat (length (indexed mixedDir)) <= maxInt)%Z)
    by (vm_compute; discriminate).
  assert (Hbytes : (totalSize mixedDir (indexed mixedDir) <= maxInt)%Z)
    by (vm_compute; discriminate).
  destruct (discovery_and_counts context.Background mixedDir inOrder idx
              Hrun Hfiles Hbytes)
    as (Hwalk & _ & _ & _ & Hnum & Hsize).
  split; [|split; [exact Hfiles|split; [exact Hbytes|]]].
  - exists idx. split; [reflexivity|]. rewrite Hnum, Hsize.
    split; vm_compute; reflexivity.
  - split; [reflexivity|]. split; [|reflexivity]. now rewrite Hwalk.
Defined.





(** C8 on [pkgDir]: the Page of [pkg.py] has the key [pkg] and the
    Section of [run] the key [pkg; .; run]. *)
Lemma search_keys_of_pages_and_functions_witness :
  visitsAll inOrder
  /\ IndexDir inOrder context.Background pkgDir = (Some pkgIndex, None)
  /\ pkgPage ∈ pagesOf pkgIndex
  /\ schema.Path pkgPage = "pkg.py"
  /\ moduleName "pkg.py" = "pkg"
  /\ schema.PageSearchKey pkgPage = ["pkg"]
  /\ schema.SearchKey runSection = ["pkg"; "."; "run"]
  /\ moduleName "a/b.py" = "a.b".
Proof.
  assert (Hrun : IndexDir inOrder context.Background pkgDir
                 = (Some pkgIndex, None)) by (vm_compute; reflexivity).
  assert (Hpage : pkgPage ∈ pagesOf pkgIndex) by apply list_elem_of_here.
  destruct (search_keys_of_pages_and_functions context.Background pkgDir
              inOrder pkgIndex inOrder_visitsAll Hrun)
    as (Hpages & _ & _).
  destruct (Hpages pkgPage Hpage) as (_ & Hkey & Hfuncs).
  destruct (Hfuncs _ runSection (list_elem_of_here _ _)
              (list_elem_of_here _ _)) as [Hrunkey _].
  split; [exact inOrder_visitsAll|]. split; [exact Hrun|].
  split; [exact Hpage|]. split; [reflexivity|].
  split; [vm_compute; reflexivity|]. split; [exact Hkey|].
  split; [exact Hrunkey|]. vm_compute; reflexivity.
Defined.

(** C9 on [pkgDir]. *)
Lemma section_trees_have_two_levels_witness :
  visitsAll inOrder
  /\ IndexDir inOrder context.Background pkgDir = (Some pkgIndex, None)
  /\ pkgPage ∈ pagesOf pkgIndex
  /\ exists c,
       schema.Sections pkgPage = [c]
       /\ schema.Category c = true
       /\ schema.ID c = "func"
       /\ schema.Label c = "Functions"
       /\ (forall s, s ∈ schema.Children c -> schema.Children s = [])
       /\ (schema.depth c <= 2)%nat.
Proof.
  assert (Hrun : IndexDir inOrder context.Background pkgDir
                 = (Some pkgIndex, None)) by (vm_compute; reflexivity).
  assert (Hpage : pkgPage ∈ pagesOf pkgIndex) by apply list_elem_of_here.
  destruct (section_trees_have_two_levels context.Background pkgDir
              inOrder pkgIndex pkgPage inOrder_visitsAll Hrun Hpage)
    as (c & Hc & Hcat & Hid & Hlabel & _ & Hleaves & Hdepth).
  split; [exact inOrder_visitsAll|]. split; [exact Hrun|].
  split; [exact Hpage|]. exists c. repeat split; try assumption.
  intros s Hs. now apply Hleaves.
Defined.

(** C10 on a directory without files and on one whose only source is a
    test. *)
Lemma empty_corpus_is_indexed_witness :
  visitsAll inOrder
  /\ fs.walkError emptyDir = None /\ indexed emptyDir = []
  /\ fs.walkError testsOnlyDir = None /\ indexed testsOnlyDir = []
  /\ (exists idx lib,
        IndexDir inOrder context.Background emptyDir = (Some idx, None)
        /\ schema.NumFiles idx = 0%Z /\ schema.NumBytes idx = 0%Z
        /\ schema.Libraries idx = [lib] /\ schema.Pages lib = [])
  /\ (exists idx lib,
        IndexDir inOrder context.Background testsOnlyDir = (Some idx, None)
        /\ schema.NumFiles idx = 0%Z /\ schema.NumBytes idx = 0%Z
        /\ schema.Libraries idx = [lib] /\ schema.Pages lib = []).
Proof.
  assert (H1 : fs.walkError emptyDir = None) by reflexivity.
  assert (H2 : indexed emptyDir = []) by (vm_compute; reflexivity).
  assert (H3 : fs.walkError testsOnlyDir = None) by reflexivity.
  assert (H4 : indexed testsOnlyDir = []) by (vm_compute; reflexivity).
  repeat (split; [assumption || exact inOrder_visitsAll|]).
  split.
  - exact (empty_corpus_is_indexed context.Background emptyDir inOrder
             inOrder_visitsAll H1 H2).
  - exact (empty_corpus_is_indexed context.Background testsOnlyDir inOrder
             inOrder_visitsAll H3 H4).
Defined.

(** * The further properties on sample directories *)

(** X5 on a directory [tests]. *)
Lemma files_below_test_directory_are_skipped_witness :
  isTest "tests" = true
  /\ "tests/data/gen.py" ∈ fs.filesUnder "tests" testsSubdir
  /\ isTest "tests/data/gen.py" = true.
Proof.
  assert (Ht : isTest "tests" = true) by (vm_compute; reflexivity).
  assert (Hp : "tests/data/gen.py" ∈ fs.filesUnder "tests" testsSubdir)
    by in_list.
  split; [exact Ht|]. split; [exact Hp|].
  exact (files_below_test_directory_are_skipped testsSubdir "tests"
           "tests/data/gen.py" Ht Hp).
Defined.

(** X8 on [twoModulesDir]. *)
Lemma pages_are_distinct_witness :
  visitsAll backwards
  /\ IndexDir backwards context.Background twoModulesDir
     = (Some (plainIndex 2 18 [bPage; aPage]), None)
  /\ NoDup (map schema.PageSearchKey
              (pagesOf (plainIndex 2 18 [bPage; aPage])))
  /\ (length (pagesOf (plainIndex 2 18 [bPage; aPage]))
      <= length (indexed twoModulesDir))%nat.
Proof.
  assert (Hrun : IndexDir backwards context.Background twoModulesDir
                 = (Some (plainIndex 2 18 [bPage; aPage]), None))
    by (vm_compute; reflexivity).
  destruct (pages_are_distinct context.Background twoModulesDir backwards _
              backwards_visitsAll Hrun) as (Hkeys & _ & Hlen).
  split; [exact backwards_visitsAll|]. split; [exact Hrun|].
  split; [exact Hkeys|exact Hlen].
Defined.

(** X9 on [collidingDir]: [a/b.py] and [a.b.py] share the module name
    [a.b]; the Page has the path of [a.b.py], which the walk meets
    last, and the functions of both. *)
Lemma page_of_last_source_witness :
  visitsAll inOrder
  /\ discovered collidingDir = ["a/b.py"; "a.b.py"]
  /\ moduleName "a/b.py" = moduleName "a.b.py"
  /\ IndexDir inOrder context.Background collidingDir
     = (Some collidingIndex, None)
  /\ (forall page, page ∈ pagesOf collidingIndex ->
        moduleSource context.Background collidingDir
          (moduleName (schema.Path page)) = Some "a.b.py"
        /\ schema.Path page = "a.b.py"
        /\ schema.Title page = "Module a.b").
Proof.
  assert (Hrun : IndexDir inOrder context.Background collidingDir
                 = (Some collidingIndex, None)) by (vm_compute; reflexivity).
  split; [exact inOrder_visitsAll|]. split; [vm_compute; reflexivity|].
  split; [vm_compute; reflexivity|]. split; [exact Hrun|].
  intros page Hpage.
  destruct (page_of_last_source context.Background collidingDir inOrder
              collidingIndex page inOrder_visitsAll Hrun Hpage)
    as (Hsrc & _ & Htitle).
  apply list_elem_of_singleton in Hpage. subst page.
  split; [exact Hsrc|]. split; [reflexivity|exact Htitle].
Defined.

(** X10 on [mixedDir]: the files that are not indexed cannot be read in
    [mixedDir] and can in [mixedReadableDir]. *)
Lemma unindexed_files_are_not_read_witness :
  fs.Stat mixedDir = fs.Stat mixedReadableDir
  /\ (forall p, p ∈ indexed mixedDir ->
        fs.ReadFile mixedDir p = fs.ReadFile mixedReadableDir p)
  /\ fs.ReadFile mixedDir "pkg/run_test.py"
     <> fs.ReadFile mixedReadableDir "pkg/run_test.py"
  /\ IndexDir inOrder context.Background mixedDir
     = IndexDir inOrder context.Background mixedReadableDir.
Proof.
  assert (Hstat : fs.Stat mixedDir = fs.Stat mixedReadableDir)
    by reflexivity.
  assert (Hread : forall p, p ∈ indexed mixedDir ->
                    fs.ReadFile mixedDir p = fs.ReadFile mixedReadableDir p).
  { intros p Hp. apply list_elem_of_In in Hp. vm_compute in Hp.
    destruct Hp as [<-|[<-|[]]]; reflexivity. }
  split; [exact Hstat|]. split; [exact Hread|].
  split; [vm_compute; discriminate|].
  exact (unindexed_files_are_not_read inOrder context.Background mixedDir
           mixedReadableDir Hstat Hread).
Defined.



(** X13 on the match of [run] in [pkgSource], which captures a name and
    parameters only. *)
Lemma missing_captures_are_empty_witness :
  functionSection pkgSource "pkg" lineScanner.FunctionQ runMatch
  = Some runSection
  /\ schema.Detail runSection = ""
  /\ schema.Label runSection
     = "def " +:+ schema.ID runSection
       +:+ firstCaptureContentOr pkgSource
             (getCaptures lineScanner.FunctionQ runMatch !!! "func_params") "".
Proof.
  assert (Hs : functionSection pkgSource "pkg" lineScanner.FunctionQ runMatch
               = Some runSection) by (vm_compute; reflexivity).
  assert (Hno : forall name, name = "func_docs" \/ name = "func_result" ->
            forall c, c ∈ sitter.Captures runMatch ->
              CaptureNameForId lineScanner.FunctionQ (sitter.Index c) <> name).
  { intros name Hname c Hc. apply list_elem_of_In in Hc. cbn in Hc.
    destruct Hc as [<-|[<-|[]]]; destruct Hname as [-> | ->]; discriminate. }
  destruct (missing_captures_are_empty (TS := lineScanner.binding)
              pkgSource "pkg" lineScanner.FunctionQ runMatch runSection Hs)
    as [Hdocs Hlabel].
  split; [exact Hs|]. split.
  - apply Hdocs, Hno. now left.
  - apply Hlabel, Hno. now right.
Defined.

(** X14 on [pkgDir]. *)
Lemma index_has_one_placeholder_library_witness :
  IndexDir inOrder context.Background pkgDir = (Some pkgIndex, None)
  /\ schema.SchemaVersion pkgIndex = 1%Z
  /\ schema.Language pkgIndex = "python"
  /\ length (schema.Libraries pkgIndex) = 1%nat.
Proof.
  assert (Hrun : IndexDir inOrder context.Background pkgDir
                 = (Some pkgIndex, None)) by (vm_compute; reflexivity).
  destruct (index_has_one_placeholder_library context.Background pkgDir
              inOrder pkgIndex Hrun) as (Hv & Hl & pages & Hlibs).
  split; [exact Hrun|]. split; [exact Hv|]. split; [exact Hl|].
  now rewrite Hlibs.
Defined.

(** X15 on [twiceDir] under a cancelled context. *)
Lemma errors_are_labelled_witness :
  IndexDir inOrder context.cancelled twiceDir
  = (None, Some (errors.Wrap context.Canceled "ParseCtx"))
  /\ exists cause op,
       errors.Wrap context.Canceled "ParseCtx" = errors.Wrap cause op
       /\ op ∈ ["WalkDir"; "ReadFile"; "ParseCtx"; "NewQuery"]
       /\ errors.Error (errors.Wrap context.Canceled "ParseCtx")
          = op +:+ ": " +:+ errors.Error cause.
Proof.
  assert (Hrun : IndexDir inOrder context.cancelled twiceDir
                 = (None, Some (errors.Wrap context.Canceled "ParseCtx")))
    by (vm_compute; reflexivity).
  split; [exact Hrun|].
  exact (errors_are_labelled context.cancelled twiceDir inOrder _ Hrun).
Defined.
